(** * radscraper: a shallow embedding of the extraction pipeline

    Source files embedded here:
    - [src/ingestion/radiopaedia.py]: [clean_text], [scrape_case],
      [scrape_article];
    - [src/models/article.py]: [ArticleSection], [ArticleImage], [Article],
      [Article.to_json].

    Line 1 of [radiopaedia.py] is a shell command ([pip install ...]) left
    in the file; the embedding covers the module from its docstring on and
    keeps the line numbers of the file.  [src/models/case.py], which the
    module imports, is not among the source files.

    Conventions.
    - A Python [str] is a list of Unicode code points ([list N]); [u] turns
      a Rocq string literal into one.
    - The network fetch and the HTML parser are outside the embedding: the
      two entry points take the parsed tree ([soup]) that
      [BeautifulSoup(resp.text, 'html.parser')] hands them, the requested
      [url], and the value of [datetime.utcnow().isoformat()] as [now].
    - A Python exception is an explicit [Raise] result.
    - [select]/[select_one] take a structured selector; every CSS literal
      of the source is transcribed once, next to its text, in
      [Module Anchors]. *)

From Stdlib Require Import String Ascii.
From Stdlib Require Import List NArith ZArith Bool Arith Lia.
From Stdlib Require Decimal DecimalN DecimalFacts.
Import ListNotations.

Set Implicit Arguments.
Set Warnings "-register-all,-abstract-large-number".
Local Open Scope N_scope.

(** ** Python strings *)

Definition str := list N.

Definition u (s : string) : str := map N_of_ascii (list_ascii_of_string s).
Arguments u s%_string.

Definition str_eqb (a b : str) : bool :=
  if list_eq_dec N.eq_dec a b then true else false.

(** [x in xs] for a list of strings. *)
Definition mem (x : str) (xs : list str) : bool := existsb (str_eqb x) xs.

(** [Py_UNICODE_ISSPACE]: the set used both by the regex class [\s] on
    [str] patterns and by [str.strip()]. *)
Definition isspace (c : N) : bool :=
  ((9 <=? c) && (c <=? 13)) || ((28 <=? c) && (c <=? 32))
  || (c =? 133) || (c =? 160) || (c =? 5760)
  || ((8192 <=? c) && (c <=? 8202))
  || (c =? 8232) || (c =? 8233) || (c =? 8239) || (c =? 8287)
  || (c =? 12288).

(** The regex class [\d] and the digits [int()] accepts, restricted to the
    ASCII digits: the other code points of category Nd are not modelled. *)
Definition isdigit (c : N) : bool := (48 <=? c) && (c <=? 57).

Definition space : N := 32.

(** [str.lower()] on ASCII and Latin-1; cased letters above U+00FF are
    left as they are (not modelled). *)
Definition lower_char (c : N) : N :=
  if ((65 <=? c) && (c <=? 90))
     || ((192 <=? c) && (c <=? 222) && negb (c =? 215))
  then c + 32 else c.

Definition lower (s : str) : str := map lower_char s.

Fixpoint starts_with (p s : str) : bool :=
  match p, s with
  | [], _ => true
  | _ :: _, [] => false
  | a :: p', b :: s' => (a =? b) && starts_with p' s'
  end.

(** [p in s] for strings (substring test). *)
Fixpoint contains (p s : str) : bool :=
  starts_with p s
  || match s with [] => false | _ :: r => contains p r end.

(** [s.replace(old, '')]: every non-overlapping occurrence of [old],
    scanning from the left, is removed; [skip] counts the characters of the
    occurrence being removed.  An empty [old] leaves [s] unchanged. *)
Fixpoint remove_occ (old : str) (skip : nat) (s : str) : str :=
  match s with
  | [] => []
  | c :: r =>
      match skip with
      | S k => remove_occ old k r
      | O => if starts_with old s
             then remove_occ old (length old - 1)%nat r
             else c :: remove_occ old 0 r
      end
  end.

Definition replace_by_empty (old s : str) : str :=
  match old with [] => s | _ => remove_occ old 0 s end.

(** [re.findall] for a pattern [C+] over a character class [C]: the
    maximal runs of characters of the class, left to right; [cur] is the
    run being read, reversed. *)
Definition flush_run (cur : str) : list str :=
  match cur with [] => [] | _ => [rev cur] end.

Fixpoint findall_from (cls : N -> bool) (cur : str) (s : str) : list str :=
  match s with
  | [] => flush_run cur
  | c :: r =>
      if cls c then findall_from cls (c :: cur) r
      else flush_run cur ++ findall_from cls [] r
  end.

(** [re.findall(r'\d+', s)] *)
Definition findall_digits (s : str) : list str := findall_from isdigit [] s.

(** The [\S+] tokens of an attribute value: how the tree builder splits a
    [class] attribute into its list of classes. *)
Definition split_ws (s : str) : list str :=
  findall_from (fun c => negb (isspace c)) [] s.

(** [int(ds)] for a run of ASCII digits. *)
Definition int_of_digits (ds : str) : Z :=
  fold_left (fun acc c => (10 * acc + Z.of_N (c - 48))%Z) ds 0%Z.

(** [sep.join(xs)] *)
Fixpoint join (sep : str) (xs : list str) : str :=
  match xs with
  | [] => []
  | [x] => x
  | x :: r => x ++ sep ++ join sep r
  end.

(** ** Text normalizer ([clean_text], radiopaedia.py lines 21-24) *)

(** [re.sub(r'\s+', ' ', s)]: [in_ws] tells that the previous character
    belonged to the run of whitespace already replaced. *)
Fixpoint sub_ws_from (in_ws : bool) (s : str) : str :=
  match s with
  | [] => []
  | c :: r =>
      if isspace c
      then (if in_ws then sub_ws_from true r else space :: sub_ws_from true r)
      else c :: sub_ws_from false r
  end.

Definition re_sub_ws (s : str) : str := sub_ws_from false s.

Fixpoint lstrip (s : str) : str :=
  match s with
  | [] => []
  | c :: r => if isspace c then lstrip r else s
  end.

Definition rstrip (s : str) : str := rev (lstrip (rev s)).

Definition strip (s : str) : str := rstrip (lstrip s).

Definition clean_text (text : option str) : str :=
  match text with
  | None => []
  | Some [] => []
  | Some s => strip (re_sub_ws s)
  end.

(** What the specification asks of a normalized string: it has no
    whitespace at either end, its only whitespace character is the plain
    space, and no two spaces are adjacent. *)
Fixpoint single_spaced (s : str) : bool :=
  match s with
  | [] => true
  | c :: r =>
      (negb (isspace c) || (c =? space))
      && match r with
         | [] => true
         | d :: _ => negb (isspace c && isspace d)
         end
      && single_spaced r
  end.

Definition no_space_at_head (s : str) : bool :=
  match s with [] => true | c :: _ => negb (isspace c) end.

Definition normalized (s : str) : bool :=
  single_spaced s && no_space_at_head s && no_space_at_head (rev s).

(** [str(n)] for a non-negative integer. *)
Fixpoint chars_of_uint (d : Decimal.uint) : str :=
  match d with
  | Decimal.Nil => []
  | Decimal.D0 r => 48 :: chars_of_uint r
  | Decimal.D1 r => 49 :: chars_of_uint r
  | Decimal.D2 r => 50 :: chars_of_uint r
  | Decimal.D3 r => 51 :: chars_of_uint r
  | Decimal.D4 r => 52 :: chars_of_uint r
  | Decimal.D5 r => 53 :: chars_of_uint r
  | Decimal.D6 r => 54 :: chars_of_uint r
  | Decimal.D7 r => 55 :: chars_of_uint r
  | Decimal.D8 r => 56 :: chars_of_uint r
  | Decimal.D9 r => 57 :: chars_of_uint r
  end.

Definition str_of_N (n : N) : str := chars_of_uint (N.to_uint n).

(** [str(z)] for an integer. *)
Definition str_of_Z (z : Z) : str :=
  match z with
  | Zneg p => 45 :: str_of_N (Npos p)
  | _ => str_of_N (Z.to_N z)
  end.

(** ** Parsed documents

    The tree BeautifulSoup builds.  [Text] is a string that counts as text;
    [Comment] stands for every string that [.text] leaves out (comments,
    doctype, declarations).  Attributes are the tag's [attrs] dictionary. *)

Inductive node : Type :=
| Text (s : str)
| Comment (s : str)
| Element (name : str) (attrs : list (str * str)) (children : list node).

(** The [BeautifulSoup] object: the top-level nodes of the document. *)
Definition soup := list node.

(** [.text]: the text strings below the node, concatenated. *)
Fixpoint text (n : node) : str :=
  match n with
  | Text s => s
  | Comment _ => []
  | Element _ _ ch => flat_map text ch
  end.

(** [.name]: [None] on strings. *)
Definition name (n : node) : option str :=
  match n with Element nm _ _ => Some nm | _ => None end.

(** [.children] *)
Definition children (n : node) : list node :=
  match n with Element _ _ ch => ch | _ => [] end.

Fixpoint get_attr (key : str) (attrs : list (str * str)) : option str :=
  match attrs with
  | [] => None
  | (k, v) :: r => if str_eqb k key then Some v else get_attr key r
  end.

(** [tag.get(key)] and [tag.has_attr(key)] *)
Definition get (key : str) (n : node) : option str :=
  match n with Element _ at_ _ => get_attr key at_ | _ => None end.

Definition has_attr (key : str) (n : node) : bool :=
  match get key n with Some _ => true | None => false end.

(** [tag.find_all(nm)]: the elements named [nm] below the tag, in document
    order. *)
Fixpoint find_all_in (nm : str) (n : node) : list node :=
  match n with
  | Element nm' _ ch =>
      (if str_eqb nm' nm then [n] else []) ++ flat_map (find_all_in nm) ch
  | _ => []
  end.

Definition find_all (nm : str) (n : node) : list node :=
  flat_map (find_all_in nm) (children n).

(** ** Structural selection

    A compound selector constrains the tag name, the id and a set of
    classes; a selector is a chain of compounds joined by the descendant
    combinator, outermost first.  These are the only selector forms the
    source uses. *)

Record compound : Type := Compound {
  sel_tag : option str;
  sel_id : option str;
  sel_classes : list str
}.

Definition selector := list compound.

Definition opt_eqb (want : option str) (have : option str) : bool :=
  match want with
  | None => true
  | Some w => match have with Some h => str_eqb w h | None => false end
  end.

Definition classes_of (attrs : list (str * str)) : list str :=
  match get_attr (u "class") attrs with
  | Some v => split_ws v
  | None => []
  end.

Definition match_compound (c : compound) (nm : str)
    (attrs : list (str * str)) : bool :=
  opt_eqb (sel_tag c) (Some nm)
  && opt_eqb (sel_id c) (get_attr (u "id") attrs)
  && forallb (fun k => mem k (classes_of attrs)) (sel_classes c).

(** [cs]: the compounds still to be found among the ancestors, nearest
    first; [ancs]: the ancestors, nearest first. *)
Fixpoint match_ancestors (cs : list compound)
    (ancs : list (str * list (str * str))) : bool :=
  match cs with
  | [] => true
  | c :: cs' =>
      (fix try_from (ancs : list (str * list (str * str))) : bool :=
         match ancs with
         | [] => false
         | (nm, at_) :: up =>
             (match_compound c nm at_ && match_ancestors cs' up)
             || try_from up
         end) ancs
  end.

Definition matches (sel : selector) (ancs : list (str * list (str * str)))
    (nm : str) (attrs : list (str * str)) : bool :=
  match rev sel with
  | [] => false
  | c :: cs => match_compound c nm attrs && match_ancestors cs ancs
  end.

Fixpoint select_in (sel : selector) (ancs : list (str * list (str * str)))
    (n : node) : list node :=
  match n with
  | Element nm at_ ch =>
      (if matches sel ancs nm at_ then [n] else [])
      ++ flat_map (select_in sel ((nm, at_) :: ancs)) ch
  | _ => []
  end.

(** [soup.select(sel)] and [soup.select_one(sel)] *)
Definition select (sel : selector) (sp : soup) : list node :=
  flat_map (select_in sel []) sp.

Definition select_one (sel : selector) (sp : soup) : option node :=
  hd_error (select sel sp).

(** [tag.select(sel)] and [tag.select_one(sel)]: the matches below [tag].
    The tag is held as a value, so its own ancestors are not available to
    the chain; the source calls these with single compounds only. *)
Definition tag_select (sel : selector) (t : node) : list node :=
  match t with
  | Element nm at_ ch => flat_map (select_in sel [(nm, at_)]) ch
  | _ => []
  end.

Definition tag_select_one (sel : selector) (t : node) : option node :=
  hd_error (tag_select sel t).

(** The structural anchors of the source, each next to its CSS text. *)
Module Anchors.

Definition cls (k : string) : compound := Compound None None [u k].
Definition classes (ks : list string) : compound :=
  Compound None None (map u ks).
Definition tag (t : string) : compound := Compound (Some (u t)) None [].
Definition tag_cls (t k : string) : compound :=
  Compound (Some (u t)) None [u k].
Definition id (i : string) : compound := Compound None (Some (u i)) [].
Arguments cls k%_string.
Arguments tag t%_string.
Arguments tag_cls (t k)%_string.
Arguments id i%_string.

(** ['.row.rid .col-sm-8'] *)
Definition case_rid : selector := [classes ["row"; "rid"]%string; cls "col-sm-8"].
(** ['.row.section-end.rid .col-sm-8'] *)
Definition article_rid : selector :=
  [classes ["row"; "section-end"; "rid"]%string; cls "col-sm-8"].
(** ['time.date'] *)
Definition date : selector := [tag_cls "time" "date"].
(** ['h1.header-title'] *)
Definition header_title : selector := [tag_cls "h1" "header-title"].
(** ['.meta-item-systems .col-sm-8 a'] *)
Definition systems : selector :=
  [cls "meta-item-systems"; cls "col-sm-8"; tag "a"].
(** ['.meta-item-tags .col-sm-8 a'] *)
Definition tags : selector :=
  [cls "meta-item-tags"; cls "col-sm-8"; tag "a"].
(** ['#case-patient-data'] *)
Definition patient_data : selector := [id "case-patient-data"].
(** ['.data-item'] *)
Definition data_item : selector := [cls "data-item"].
(** ['.data-item-label'] *)
Definition data_item_label : selector := [cls "data-item-label"].
(** ['.diagnostic-certainty-container'] *)
Definition certainty : selector := [cls "diagnostic-certainty-container"].
(** ['.study-findings.body'] *)
Definition findings : selector := [classes ["study-findings"; "body"]%string].
(** ['#case-discussion'] *)
Definition discussion : selector := [id "case-discussion"].
(** ['._StudyCarouselHeader_ImageListItem img'] *)
Definition carousel : selector :=
  [cls "_StudyCarouselHeader_ImageListItem"; tag "img"].
(** ['.body.user-generated-content'] *)
Definition content : selector :=
  [classes ["body"; "user-generated-content"]%string].
(** ['.SidebarStudyViewer .hidden.data'] *)
Definition viewer_data : selector :=
  [cls "SidebarStudyViewer"; classes ["hidden"; "data"]%string].

End Anchors.

(** ** Exceptions *)

Inductive exn : Type :=
| AttributeError.

Inductive result (A : Type) : Type :=
| Ok (a : A)
| Raise (e : exn).

Arguments Ok {A} a.
Arguments Raise {A} e.

Definition bind {A B : Type} (r : result A) (k : A -> result B) : result B :=
  match r with
  | Ok a => k a
  | Raise e => Raise e
  end.

Notation "'do' x <- r ;; k" := (bind r (fun x => k))
  (at level 10, x name, r at level 100, k at level 200).

(** [node.text] where [node] may be [None]: attribute access on [None]
    raises. *)
Definition text_of (n : option node) : result str :=
  match n with
  | Some t => Ok (text t)
  | None => Raise AttributeError
  end.

(** ** JSON values

    What [json.loads] returns: [None], [bool], [int], [float], [str],
    [list], [dict].  A [dict] keeps its keys in insertion order, without
    duplicates.  A float is kept as the text of its literal (["1.5"],
    ["NaN"], ["-Infinity"]): the embedding does not interpret floating
    point. *)

Inductive json : Type :=
| JNull
| JBool (b : bool)
| JInt (z : Z)
| JFloat (lexeme : str)
| JString (s : str)
| JArray (items : list json)
| JObject (members : list (str * json)).

(** [d[key] = v] on a dictionary. *)
Fixpoint dict_set (key : str) (v : json) (d : list (str * json))
    : list (str * json) :=
  match d with
  | [] => [(key, v)]
  | (k, w) :: r =>
      if str_eqb k key then (k, v) :: r else (k, w) :: dict_set key v r
  end.

(** [d.get(key, default)] on a dictionary. *)
Fixpoint dict_get (key : str) (d : list (str * json)) (default : json)
    : json :=
  match d with
  | [] => default
  | (k, w) :: r => if str_eqb k key then w else dict_get key r default
  end.

(** ** Records *)

(** [metadata]: the dictionary with keys [created_at], [url], [license]
    that both entry points build. *)
Record Metadata : Type := mkMetadata {
  created_at : str;
  url : str;
  license : str
}.

Module CaseImage.
(** Modelled from the spec: the [Image] dataclass of
    [src/models/case.py], which is not among the source files; fields as
    the constructor call in [scrape_case] names them. *)
Record t : Type := mk {
  image_id : str;
  modality : str;
  plane : str;
  filepath : str;
  caption : str;
  annotations : list (str * str)
}.
End CaseImage.

(** The [diagnosis] and [narrative] dictionaries of [scrape_case]. *)
Record Diagnosis : Type := mkDiagnosis {
  diagnosis_text : str;
  certainty : str
}.

Record Narrative : Type := mkNarrative {
  findings : str;
  impression : str;
  discussion : str
}.

Module Case.
(** Modelled from the spec: the [Case] dataclass of
    [src/models/case.py], which is not among the source files; fields as
    the constructor call in [scrape_case] names them and as the data
    model of the specification lists them. *)
Record t : Type := mk {
  source : str;
  source_id : str;
  title : str;
  body_system : str;
  body_part : str;
  modality : list str;
  clinical_presentation : str;
  diagnosis : Diagnosis;
  narrative : Narrative;
  images : list CaseImage.t;
  tags : list str;
  metadata : Metadata
}.
End Case.

Module ArticleSection.
Record t : Type := mk {
  slug : str;
  title : str;
  markdown : str
}.
End ArticleSection.

Module ArticleImage.
(** [caption] and [filepath] receive whatever the payload holds under
    the keys [caption] and [thumbnail]: the annotation [str] is not
    enforced. *)
Record t : Type := mk {
  image_id : str;
  figure_label : option str;
  modality : option str;
  plane : option str;
  caption : json;
  filepath : json
}.
End ArticleImage.

Module Article.
Record t : Type := mk {
  source : str;
  source_id : str;
  type : str;
  title : str;
  body_system : str;
  body_part : option str;
  sections : list ArticleSection.t;
  images : list ArticleImage.t;
  tags : list str;
  metadata : Metadata
}.
End Article.

(** ** [scrape_case] (radiopaedia.py lines 26-136) *)

(** The local [patient] dictionary (lines 52-57). *)
Record Patient : Type := mkPatient {
  age : option Z;
  age_unit : str;
  sex : option str;
  other : option str
}.

Definition patient_init : Patient :=
  mkPatient None (u "years") None None.

(** One iteration of the loop over the data items (lines 61-69).
    [findall_digits] and [int_of_digits] are [re.findall(r'\d+', ...)] and
    [int(...)] on the ASCII digits.  Two things are left out: the digits
    outside ASCII that [\d] matches too, and the [ValueError] that [int()]
    raises, from CPython 3.11 on, on a run of more than
    [int_max_str_digits] digits.  A property that depends on either says
    so in a hypothesis ([items_within_int_limit]). *)
Definition patient_step (item : node) (p : Patient) : result Patient :=
  do raw_label <- text_of (tag_select_one Anchors.data_item_label item) ;;
  let label := lower (clean_text (Some raw_label)) in
  do raw_label' <- text_of (tag_select_one Anchors.data_item_label item) ;;
  let value := replace_by_empty raw_label' (clean_text (Some (text item))) in
  if contains (u "age") label then
    match findall_digits value with
    | n :: _ => Ok (mkPatient (Some (int_of_digits n))
                              (age_unit p) (sex p) (other p))
    | [] => Ok p
    end
  else if contains (u "gender") label || contains (u "sex") label then
    Ok (mkPatient (age p) (age_unit p) (Some (lower value)) (other p))
  else Ok p.

Fixpoint patient_loop (items : list node) (p : Patient) : result Patient :=
  match items with
  | [] => Ok p
  | item :: r => do p' <- patient_step item p ;; patient_loop r p'
  end.

(** Lines 52-69. *)
Definition extract_patient (sp : soup) : result Patient :=
  match select_one Anchors.patient_data sp with
  | Some patient_data =>
      patient_loop (tag_select Anchors.data_item patient_data) patient_init
  | None => Ok patient_init
  end.

(** The loop over the carousel items (lines 104-117); [idx] is the index
    [enumerate] gives the current item. *)
Fixpoint case_images (source_id : str) (idx : N) (items : list node)
    : list CaseImage.t :=
  match items with
  | [] => []
  | img :: r =>
      match get (u "src") img with
      | None | Some [] => case_images source_id (idx + 1) r
      | Some src =>
          CaseImage.mk
            (source_id ++ u "_img_" ++ str_of_N (idx + 1))
            (u "Unknown") (u "Unknown") src
            (u "Image " ++ str_of_N (idx + 1) ++ u " from case")
            []
          :: case_images source_id (idx + 1) r
      end
  end.

Definition scrape_case (url now : str) (sp : soup) : result Case.t :=
  let rid_div := select_one Anchors.case_rid sp in
  let source_id :=
    match rid_div with
    | Some d => u "rID-" ++ clean_text (Some (text d))
    | None => u "unknown"
    end in
  let date_el := select_one Anchors.date sp in
  let created_at :=
    match date_el with
    | Some d => match get (u "datetime") d with Some v => v | None => now end
    | None => now
    end in
  let title :=
    match select_one Anchors.header_title sp with
    | Some h => clean_text (Some (text h))
    | None => u "Untitled"
    end in
  let system_el := select_one Anchors.systems sp in
  let body_system :=
    match system_el with
    | Some a => clean_text (Some (text a))
    | None => u "Unknown"
    end in
  let tags :=
    map (fun a => clean_text (Some (text a))) (select Anchors.tags sp) in
  (* [patient] is filled in here and never read again: the call of
     [Case] below does not pass it. *)
  do patient <- extract_patient sp ;;
  let presentation := u "Not explicitly stated" in
  let diagnosis_div := select_one Anchors.certainty sp in
  let diagnosis :=
    mkDiagnosis title
      match diagnosis_div with
      | Some d => clean_text (Some (text d))
      | None => u "unknown"
      end in
  let findings_div := select_one Anchors.findings sp in
  let discussion_div := select_one Anchors.discussion sp in
  let narrative :=
    mkNarrative
      match findings_div with
      | Some d => clean_text (Some (text d))
      | None => []
      end
      []
      match discussion_div with
      | Some d => clean_text (Some (text d))
      | None => []
      end in
  let images := case_images source_id 0 (select Anchors.carousel sp) in
  Ok (Case.mk
        (u "radiopaedia") source_id title body_system (u "Unknown")
        [if mem (u "ct") tags then u "CT" else u "X-ray"]
        presentation diagnosis narrative images tags
        (mkMetadata created_at url (u "See Radiopaedia ToS"))).

(** What [scrape_case] returns once the patient loop is through: every
    field is read off the document; the patient data is not among them. *)
Definition case_record (url now : str) (sp : soup) : Case.t :=
  let source_id :=
    match select_one Anchors.case_rid sp with
    | Some d => u "rID-" ++ clean_text (Some (text d))
    | None => u "unknown"
    end in
  let title :=
    match select_one Anchors.header_title sp with
    | Some h => clean_text (Some (text h))
    | None => u "Untitled"
    end in
  let tags :=
    map (fun a => clean_text (Some (text a))) (select Anchors.tags sp) in
  Case.mk
    (u "radiopaedia") source_id title
    match select_one Anchors.systems sp with
    | Some a => clean_text (Some (text a))
    | None => u "Unknown"
    end
    (u "Unknown")
    [if mem (u "ct") tags then u "CT" else u "X-ray"]
    (u "Not explicitly stated")
    (mkDiagnosis title
       match select_one Anchors.certainty sp with
       | Some d => clean_text (Some (text d))
       | None => u "unknown"
       end)
    (mkNarrative
       match select_one Anchors.findings sp with
       | Some d => clean_text (Some (text d))
       | None => []
       end
       []
       match select_one Anchors.discussion sp with
       | Some d => clean_text (Some (text d))
       | None => []
       end)
    (case_images source_id 0 (select Anchors.carousel sp))
    tags
    (mkMetadata
       match select_one Anchors.date sp with
       | Some d =>
           match get (u "datetime") d with Some v => v | None => now end
       | None => now
       end
       url (u "See Radiopaedia ToS")).

(** ** [json.loads]

    The decoder of the standard library as CPython runs it (the C scanner,
    strict mode).  [None] stands for [JSONDecodeError].  The recursion
    limit of the interpreter and the limit on the length of an integer
    literal are not modelled: on a text nested deeper than the first, or
    with an integer of more digits than the second ([int_max_str_digits]),
    [json.loads] raises where this decoder returns a value. *)

Definition is_json_ws (c : N) : bool :=
  (c =? 32) || (c =? 9) || (c =? 10) || (c =? 13).

Fixpoint skip_ws (s : str) : str :=
  match s with
  | [] => []
  | c :: r => if is_json_ws c then skip_ws r else s
  end.

Definition hex_digit (c : N) : option N :=
  if (48 <=? c) && (c <=? 57) then Some (c - 48)
  else if (97 <=? c) && (c <=? 102) then Some (c - 87)
  else if (65 <=? c) && (c <=? 70) then Some (c - 55)
  else None.

Definition hex4 (a b c d : N) : option N :=
  match hex_digit a, hex_digit b, hex_digit c, hex_digit d with
  | Some x, Some y, Some z, Some w => Some (((x * 16 + y) * 16 + z) * 16 + w)
  | _, _, _, _ => None
  end.

Definition is_high_surrogate (c : N) : bool := (55296 <=? c) && (c <=? 56319).
Definition is_low_surrogate (c : N) : bool := (56320 <=? c) && (c <=? 57343).
Definition join_surrogates (hi lo : N) : N :=
  65536 + (hi - 55296) * 1024 + (lo - 56320).

(** The character a one-letter escape stands for. *)
Definition simple_escape (e : N) : option N :=
  if e =? 34 then Some 34
  else if e =? 92 then Some 92
  else if e =? 47 then Some 47
  else if e =? 98 then Some 8
  else if e =? 102 then Some 12
  else if e =? 110 then Some 10
  else if e =? 114 then Some 13
  else if e =? 116 then Some 9
  else None.

Definition push (c : N) (r : option (str * str)) : option (str * str) :=
  match r with
  | Some (x, rest) => Some (c :: x, rest)
  | None => None
  end.

(** [scanstring]: the input starts just after the opening quote; the
    result is the decoded string and what follows the closing quote. *)
Fixpoint scanstring (s : str) : option (str * str) :=
  match s with
  | [] => None
  | c :: r =>
      if c =? 34 then Some ([], r)
      else if c =? 92 then
        match r with
        | [] => None
        | e :: r1 =>
            if e =? 117 then
              match r1 with
              | a :: b :: c' :: d :: r2 =>
                  match hex4 a b c' d with
                  | None => None
                  | Some hi =>
                      if is_high_surrogate hi then
                        match r2 with
                        | x :: y :: a2 :: b2 :: c2 :: d2 :: r3 =>
                            if (x =? 92) && (y =? 117) then
                              match hex4 a2 b2 c2 d2 with
                              | None => None
                              | Some lo =>
                                  if is_low_surrogate lo
                                  then push (join_surrogates hi lo)
                                            (scanstring r3)
                                  else push hi (scanstring r2)
                              end
                            else push hi (scanstring r2)
                        | _ => push hi (scanstring r2)
                        end
                      else push hi (scanstring r2)
                  end
              | _ => None
              end
            else
              match simple_escape e with
              | Some c' => push c' (scanstring r1)
              | None => None
              end
        end
      else if c <=? 31 then None
      else push c (scanstring r)
  end.

(** The longest prefix of digits, and what follows it. *)
Fixpoint span_digits (s : str) : str * str :=
  match s with
  | [] => ([], [])
  | c :: r =>
      if isdigit c
      then let (ds, rest) := span_digits r in (c :: ds, rest)
      else ([], s)
  end.

(** The integer part of a number: [0] alone, or a digit from 1 to 9
    followed by digits. *)
Definition int_part (s : str) : option (str * str) :=
  match s with
  | [] => None
  | c :: r =>
      if c =? 48 then Some ([c], r)
      else if isdigit c then Some (span_digits s)
      else None
  end.

(** The fraction: a dot followed by at least one digit. *)
Definition frac_part (s : str) : str * str :=
  match s with
  | dot :: d :: r =>
      if (dot =? 46) && isdigit d
      then let (ds, rest) := span_digits (d :: r) in (dot :: ds, rest)
      else ([], s)
  | _ => ([], s)
  end.

(** The exponent: [e] or [E], an optional sign, at least one digit;
    otherwise nothing is consumed. *)
Definition exp_part (s : str) : str * str :=
  match s with
  | e :: r =>
      if (e =? 101) || (e =? 69) then
        let (sign, r1) :=
          match r with
          | sg :: r' => if (sg =? 45) || (sg =? 43) then ([sg], r') else ([], r)
          | [] => ([], r)
          end in
        match span_digits r1 with
        | ([], _) => ([], s)
        | (ds, rest) => (e :: sign ++ ds, rest)
        end
      else ([], s)
  | [] => ([], s)
  end.

Definition match_number (s : str) : option (json * str) :=
  let (sign, s1) :=
    match s with
    | c :: r => if c =? 45 then ([c], r) else ([], s)
    | [] => ([], s)
    end in
  match int_part s1 with
  | None => None
  | Some (ds, r1) =>
      let (fs, r2) := frac_part r1 in
      let (es, r3) := exp_part r2 in
      match fs, es with
      | [], [] =>
          Some (JInt (match sign with
                      | [] => int_of_digits ds
                      | _ => - int_of_digits ds
                      end)%Z, r3)
      | _, _ => Some (JFloat (sign ++ ds ++ fs ++ es), r3)
      end
  end.

(** The loop over the members of an object, entered on the first key;
    [pv] reads one value, [n] bounds the number of members read. *)
Fixpoint parse_members (pv : str -> option (json * str)) (n : nat)
    (s : str) (acc : list (str * json)) : option (json * str) :=
  match n with
  | O => None
  | S n' =>
      match s with
      | [] => None
      | q :: r =>
          if q =? 34 then
            match scanstring r with
            | None => None
            | Some (key, r1) =>
                match skip_ws r1 with
                | [] => None
                | colon :: r2 =>
                    if colon =? 58 then
                      match pv (skip_ws r2) with
                      | None => None
                      | Some (v, r3) =>
                          let acc' := dict_set key v acc in
                          match skip_ws r3 with
                          | [] => None
                          | c :: r4 =>
                              if c =? 125 then Some (JObject acc', r4)
                              else if c =? 44
                              then parse_members pv n' (skip_ws r4) acc'
                              else None
                          end
                      end
                    else None
                end
            end
          else None
      end
  end.

(** The loop over the items of an array, entered on the first item; [acc]
    holds the items read so far, last first. *)
Fixpoint parse_items (pv : str -> option (json * str)) (n : nat)
    (s : str) (acc : list json) : option (json * str) :=
  match n with
  | O => None
  | S n' =>
      match pv s with
      | None => None
      | Some (v, r1) =>
          match skip_ws r1 with
          | [] => None
          | c :: r2 =>
              if c =? 93 then Some (JArray (rev (v :: acc)), r2)
              else if c =? 44
              then parse_items pv n' (skip_ws r2) (v :: acc)
              else None
          end
      end
  end.

(** [scan_once]: one JSON term at the head of [s]. *)
Fixpoint scan_once (fuel : nat) (s : str) : option (json * str) :=
  match fuel with
  | O => None
  | S f =>
      match s with
      | [] => None
      | c :: r =>
          if c =? 34 then
            match scanstring r with
            | Some (x, rest) => Some (JString x, rest)
            | None => None
            end
          else if c =? 123 then
            match skip_ws r with
            | c' :: r' =>
                if c' =? 125 then Some (JObject [], r')
                else parse_members (scan_once f) f (c' :: r') []
            | [] => None
            end
          else if c =? 91 then
            match skip_ws r with
            | c' :: r' =>
                if c' =? 93 then Some (JArray [], r')
                else parse_items (scan_once f) f (c' :: r') []
            | [] => None
            end
          else if starts_with (u "null") s
          then Some (JNull, skipn 4 s)
          else if starts_with (u "true") s
          then Some (JBool true, skipn 4 s)
          else if starts_with (u "false") s
          then Some (JBool false, skipn 5 s)
          else if starts_with (u "NaN") s
          then Some (JFloat (u "NaN"), skipn 3 s)
          else if starts_with (u "Infinity") s
          then Some (JFloat (u "Infinity"), skipn 8 s)
          else if starts_with (u "-Infinity") s
          then Some (JFloat (u "-Infinity"), skipn 9 s)
          else match_number s
      end
  end.

(** [json.loads(s)]: leading whitespace, one term, trailing whitespace,
    nothing else.  Every term and every loop iteration consumes at least
    one character, so the length of the input bounds both. *)
Definition json_loads (s : str) : option json :=
  match scan_once (S (length s)) (skip_ws s) with
  | Some (v, rest) =>
      match skip_ws rest with
      | [] => Some v
      | _ :: _ => None
      end
  | None => None
  end.

(** ** [scrape_article] (radiopaedia.py lines 138-219) *)

(** [.replace(' ', '_')] *)
Definition underscore_spaces (s : str) : str :=
  map (fun c => if c =? 32 then 95 else c) s.

(** The [ArticleSection] built from the current buffer (lines 162-166 and
    177-181); [[10]] is the newline of ["\n".join]. *)
Definition section_of (title : str) (lines : list str) : ArticleSection.t :=
  ArticleSection.mk (underscore_spaces (lower title)) title
                    (join [10] lines).

(** [if current_section["text"]: sections.append(...)] *)
Definition flush (sections : list ArticleSection.t) (title : str)
    (lines : list str) : list ArticleSection.t :=
  match lines with
  | [] => sections
  | _ :: _ => sections ++ [section_of title lines]
  end.

Definition is_heading (nm : str) : bool := mem nm [u "h2"; u "h3"; u "h4"].

(** The loop over [content_div.children] followed by the final flush
    (lines 158-181); [title] and [lines] are the two entries of
    [current_section]. *)
Fixpoint segment (kids : list node) (sections : list ArticleSection.t)
    (title : str) (lines : list str) : list ArticleSection.t :=
  match kids with
  | [] => flush sections title lines
  | child :: r =>
      match name child with
      | Some nm =>
          if is_heading nm then
            segment r (flush sections title lines)
                    (clean_text (Some (text child))) []
          else if str_eqb nm (u "p") then
            segment r sections title
                    (lines ++ [clean_text (Some (text child))])
          else if str_eqb nm (u "ul") then
            segment r sections title
                    (lines ++ map (fun li => u "- " ++ text li)
                                  (find_all (u "li") child))
          else segment r sections title lines
      | None => segment r sections title lines
      end
  end.

(** Lines 153-181. *)
Definition article_sections (sp : soup) : list ArticleSection.t :=
  match select_one Anchors.content sp with
  | Some content_div => segment (children content_div) [] (u "Introduction") []
  | None => []
  end.

(** *** Segments, read off the children directly

    The same sections described without the loop state: the children are
    cut at the heading elements; each piece carries the lines of its
    paragraphs and list items. *)

Definition is_heading_node (child : node) : bool :=
  match name child with
  | Some nm => is_heading nm
  | None => false
  end.

(** The lines a child that is not a heading adds to the buffer. *)
Definition child_lines (child : node) : list str :=
  match name child with
  | Some nm =>
      if str_eqb nm (u "p") then [clean_text (Some (text child))]
      else if str_eqb nm (u "ul") then
        map (fun li => u "- " ++ text li) (find_all (u "li") child)
      else []
  | None => []
  end.

(** The cleaned texts of the heading elements (levels 2 to 4) among the
    children, in document order. *)
Definition heading_titles (kids : list node) : list str :=
  map (fun h => clean_text (Some (text h))) (filter is_heading_node kids).

(** The lines before the first heading, and for each heading its title
    with the lines up to the next heading. *)
Fixpoint split_at_headings (kids : list node)
    : list str * list (str * list str) :=
  match kids with
  | [] => ([], [])
  | child :: r =>
      let (pre, groups) := split_at_headings r in
      if is_heading_node child
      then ([], (clean_text (Some (text child)), pre) :: groups)
      else (child_lines child ++ pre, groups)
  end.

Definition has_lines (g : str * list str) : bool :=
  match snd g with [] => false | _ :: _ => true end.

Definition sections_of_groups (groups : list (str * list str))
    : list ArticleSection.t :=
  map (fun g => section_of (fst g) (snd g)) (filter has_lines groups).

(** Python's [repr] of a float and of a string depend on IEEE doubles and
    on the Unicode character database; they are parameters of the
    embedding.  [repr_float] receives the literal the float was read from. *)
Record PyRepr : Type := mkPyRepr {
  repr_float : str -> str;
  repr_str : str -> str
}.

Section EmbeddedData.

Variable py : PyRepr.

(** [repr(v)] for a decoded JSON value. *)
Fixpoint py_repr (v : json) : str :=
  match v with
  | JNull => u "None"
  | JBool true => u "True"
  | JBool false => u "False"
  | JInt z => str_of_Z z
  | JFloat l => repr_float py l
  | JString s => repr_str py s
  | JArray items => u "[" ++ join (u ", ") (map py_repr items) ++ u "]"
  | JObject members =>
      u "{"
      ++ join (u ", ")
              (map (fun kv => repr_str py (fst kv) ++ u ": "
                              ++ py_repr (snd kv)) members)
      ++ u "}"
  end.

(** [str(v)] *)
Definition py_str (v : json) : str :=
  match v with
  | JString s => s
  | _ => py_repr v
  end.

(** Lines 191-198 for one [item]; [None] when [item] has no [get]
    (it is not a dictionary). *)
Definition image_of_item (item : json) : option ArticleImage.t :=
  match item with
  | JObject d =>
      Some (ArticleImage.mk
              (py_str (dict_get (u "imageId") d (JString (u "unknown"))))
              None
              (Some (u "Unknown"))
              None
              (dict_get (u "caption") d (JString []))
              (dict_get (u "thumbnail") d (JString [])))
  | _ => None
  end.

(** The [for] loop of lines 190-198 inside the [try]: an item without
    [get] raises, the bare [except] ends the loop, and the images
    appended before it stay in the list. *)
Fixpoint images_loop (items : list json) : list ArticleImage.t :=
  match items with
  | [] => []
  | item :: r =>
      match image_of_item item with
      | Some img => img :: images_loop r
      | None => []
      end
  end.

(** What iterating over [data.get('inclusions', [])] appends: a list is
    walked item by item; a string or a dictionary yields strings, which
    have no [get]; anything else is not iterable.  Each of the last
    three ends in the [except] with nothing appended. *)
Definition images_of_inclusions (v : json) : list ArticleImage.t :=
  match v with
  | JArray items => images_loop items
  | _ => []
  end.

(** Lines 184-200. *)
Definition article_images (sp : soup) : list ArticleImage.t :=
  match select_one Anchors.viewer_data sp with
  | Some viewer_data =>
      match json_loads (text viewer_data) with
      | Some (JObject d) =>
          images_of_inclusions (dict_get (u "inclusions") d (JArray []))
      | Some _ => []
      | None => []
      end
  | None => []
  end.

Definition scrape_article (url now : str) (sp : soup) : result Article.t :=
  do raw_title <- text_of (select_one Anchors.header_title sp) ;;
  let title := clean_text (Some raw_title) in
  let rid_div := select_one Anchors.article_rid sp in
  let source_id :=
    match rid_div with
    | Some d => u "rID-" ++ clean_text (Some (text d))
    | None => u "unknown"
    end in
  let system_el := select_one Anchors.systems sp in
  let body_system :=
    match system_el with
    | Some a => clean_text (Some (text a))
    | None => u "Unknown"
    end in
  let sections := article_sections sp in
  let images := article_images sp in
  let tags :=
    map (fun a => clean_text (Some (text a))) (select Anchors.tags sp) in
  Ok (Article.mk
        (u "radiopaedia") source_id (u "article") title body_system None
        sections images tags
        (mkMetadata now url (u "See Radiopaedia ToS"))).

(** What [scrape_article] returns when the title heading [h] is there. *)
Definition article_record (url now : str) (sp : soup) (h : node)
    : Article.t :=
  Article.mk
    (u "radiopaedia")
    match select_one Anchors.article_rid sp with
    | Some d => u "rID-" ++ clean_text (Some (text d))
    | None => u "unknown"
    end
    (u "article")
    (clean_text (Some (text h)))
    match select_one Anchors.systems sp with
    | Some a => clean_text (Some (text a))
    | None => u "Unknown"
    end
    None
    (article_sections sp)
    (article_images sp)
    (map (fun a => clean_text (Some (text a))) (select Anchors.tags sp))
    (mkMetadata now url (u "See Radiopaedia ToS")).

End EmbeddedData.

(** The identifier both entry points compute from the anchor region. *)
Definition identifier_of (region : option node) : str :=
  match region with
  | Some d => u "rID-" ++ clean_text (Some (text d))
  | None => u "unknown"
  end.

(** ** Sample documents *)

Module Samples.

Definition elem (nm cls : string) (ch : list node) : node :=
  Element (u nm) [(u "class", u cls)] ch.
Arguments elem (nm cls)%_string ch.

Definition plain (nm : string) (ch : list node) : node :=
  Element (u nm) [] ch.
Arguments plain nm%_string ch.

Definition py0 : PyRepr := mkPyRepr (fun l => l) (fun s => s).

(** A page without any of the anchors. *)
Definition blank : soup := [plain "p" [Text (u "nothing here")]].

(** Patient data as the site lays it out: each item is a label element
    followed by the value. *)
Definition patient_two_items : soup :=
  [Element (u "div") [(u "id", u "case-patient-data")]
     [elem "div" "data-item"
        [elem "strong" "data-item-label" [Text (u "Age:")];
         Text (u " 34 years")];
      elem "div" "data-item"
        [elem "strong" "data-item-label" [Text (u "Gender:")];
         Text (u " Female")]]].

(** The whole sentence under one label. *)
Definition patient_one_item : soup :=
  [Element (u "div") [(u "id", u "case-patient-data")]
     [elem "div" "data-item"
        [elem "strong" "data-item-label" [Text (u "Age:")];
         Text (u " 34 years, Female")]]].

(** A data item without a label element. *)
Definition patient_no_label : soup :=
  [Element (u "div") [(u "id", u "case-patient-data")]
     [elem "div" "data-item" [Text (u "Age: 34 years")]]].

(** Identifier regions whose text is not made of digits only. *)
Definition case_rid_mixed : soup :=
  [elem "div" "row rid" [elem "div" "col-sm-8" [Text (u " a1 ")]]].

Definition article_rid_mixed : soup :=
  [elem "h1" "header-title" [Text (u "T")];
   elem "div" "row section-end rid"
     [elem "div" "col-sm-8" [Text (u " a1 ")]]].

Definition tagged (t : string) : soup :=
  [elem "div" "meta-item-tags"
     [elem "div" "col-sm-8" [plain "a" [Text (u t)]]]].
Arguments tagged t%_string.

Definition case_rid_digits : soup :=
  [elem "div" "row rid" [elem "div" "col-sm-8" [Text (u "8654")]]].

(** An article page with nothing but its title. *)
Definition titled : soup := [elem "h1" "header-title" [Text (u "T")]].

(** A literal in which ['] stands for the double quote. *)
Definition dq (s : string) : str :=
  map (fun c => if c =? 39 then 34 else c) (u s).
Arguments dq s%_string.

Definition scenario_D_payload : str :=
  dq "{'inclusions':[{'imageId':'5','caption':'c','thumbnail':'u'}]}".

Definition with_viewer_data (payload : str) : soup :=
  [elem "h1" "header-title" [Text (u "T")];
   elem "div" "SidebarStudyViewer"
     [elem "div" "hidden data" [Text payload]]].

(** Article pages with the payload of scenario D, with a payload cut
    short, and with a second entry that is not an object. *)
Definition article_scenario_D : soup := with_viewer_data scenario_D_payload.

Definition article_bad_payload : soup :=
  with_viewer_data (dq "{'inclusions':[{'imageId':'5'").

Definition article_second_entry_bad : soup :=
  with_viewer_data (dq "{'inclusions':[{'imageId':7},3,{'imageId':'9'}]}").

Definition with_content (kids : list node) : soup :=
  [elem "h1" "header-title" [Text (u "T")];
   elem "div" "body user-generated-content" kids].

(** Article bodies: a paragraph and no heading; a heading without
    content before the next one; a list item and a paragraph with the
    same raw text. *)
Definition body_no_heading : list node := [plain "p" [Text (u "x")]].

Definition body_empty_heading : list node :=
  [plain "h2" [Text (u "A")]; plain "h2" [Text (u "B")];
   plain "p" [Text (u "t")]].

Definition body_list_item : list node :=
  [plain "ul" [plain "li" [Text (u "a  b")]]].

Definition body_paragraph : list node := [plain "p" [Text (u "a  b")]].

(** The body of scenario C. *)
Definition body_scenario_C : list node :=
  [plain "h2" [Text (u "Findings")]; plain "p" [Text (u "Text A")];
   plain "h2" [Text (u "Discussion")]; plain "p" [Text (u "Text B")]].

End Samples.

(** ** [Article.to_json] (article.py lines 33-34) *)

Definition hex_char (d : N) : N := if d <? 10 then 48 + d else 87 + d.

(** [encode_basestring] with [ensure_ascii=False]: the quote, the
    backslash and the control characters U+0000 to U+001F are escaped,
    every other code point is written as it is. *)
Definition escape_char (c : N) : str :=
  if c =? 34 then [92; 34]
  else if c =? 92 then [92; 92]
  else if c =? 10 then [92; 110]
  else if c =? 13 then [92; 114]
  else if c =? 9 then [92; 116]
  else if c =? 8 then [92; 98]
  else if c =? 12 then [92; 102]
  else if c <=? 31 then [92; 117; 48; 48; hex_char (c / 16); hex_char (c mod 16)]
  else [c].

Definition encode_basestring (s : str) : str :=
  34 :: flat_map escape_char s ++ [34].

(** [floatstr] of [json.encoder]: a float that is not finite is written
    [NaN], [Infinity] or [-Infinity], any other the way [float.__repr__]
    writes it; [r] is what [float.__repr__] gives. *)
Definition float_text (r : str) : str :=
  if str_eqb r (u "nan") then u "NaN"
  else if str_eqb r (u "inf") then u "Infinity"
  else if str_eqb r (u "-inf") then u "-Infinity"
  else r.

Section Dumps.

Variable py : PyRepr.

(** [json.dumps(v, ensure_ascii=False)]: the default separators [", "]
    and [": "], no indentation, keys in insertion order.  This is the text
    the encoder writes when it returns; the recursion limit of the
    interpreter, which makes it raise on a value nested too deep, is
    modelled by [to_json_within] below. *)
Fixpoint dumps (v : json) : str :=
  match v with
  | JNull => u "null"
  | JBool true => u "true"
  | JBool false => u "false"
  | JInt z => str_of_Z z
  | JFloat l => float_text (repr_float py l)
  | JString s => encode_basestring s
  | JArray items => u "[" ++ join (u ", ") (map dumps items) ++ u "]"
  | JObject members =>
      u "{"
      ++ join (u ", ")
              (map (fun kv => encode_basestring (fst kv) ++ u ": "
                              ++ dumps (snd kv)) members)
      ++ u "}"
  end.

End Dumps.

Definition json_of_option (o : option str) : json :=
  match o with
  | Some s => JString s
  | None => JNull
  end.

(** [dataclasses.asdict]: a dataclass becomes the dictionary of its
    fields in declaration order, lists and dictionaries are copied item by
    item. *)
Definition asdict_metadata (m : Metadata) : json :=
  JObject [(u "created_at", JString (created_at m));
           (u "url", JString (url m));
           (u "license", JString (license m))].

Definition asdict_section (s : ArticleSection.t) : json :=
  JObject [(u "slug", JString (ArticleSection.slug s));
           (u "title", JString (ArticleSection.title s));
           (u "markdown", JString (ArticleSection.markdown s))].

Definition asdict_image (i : ArticleImage.t) : json :=
  JObject [(u "image_id", JString (ArticleImage.image_id i));
           (u "figure_label", json_of_option (ArticleImage.figure_label i));
           (u "modality", json_of_option (ArticleImage.modality i));
           (u "plane", json_of_option (ArticleImage.plane i));
           (u "caption", ArticleImage.caption i);
           (u "filepath", ArticleImage.filepath i)].

Definition asdict (a : Article.t) : json :=
  JObject [(u "source", JString (Article.source a));
           (u "source_id", JString (Article.source_id a));
           (u "type", JString (Article.type a));
           (u "title", JString (Article.title a));
           (u "body_system", JString (Article.body_system a));
           (u "body_part", json_of_option (Article.body_part a));
           (u "sections", JArray (map asdict_section (Article.sections a)));
           (u "images", JArray (map asdict_image (Article.images a)));
           (u "tags", JArray (map JString (Article.tags a)));
           (u "metadata", asdict_metadata (Article.metadata a))].

(** The text [to_json] returns when it returns. *)
Definition to_json (py : PyRepr) (a : Article.t) : str :=
  dumps py (asdict a).

(** [asdict] and the encoder recurse along the nesting of a value, and the
    interpreter bounds the recursion: past a certain depth of nesting of a
    payload value the call raises [RecursionError] instead of returning.
    Every other field of the record is a string or a list of flat
    records, so only [caption] and [filepath] can be nested that deep. *)
Fixpoint depth (v : json) : nat :=
  match v with
  | JArray items => S (fold_right (fun x m => Nat.max (depth x) m) O items)
  | JObject members =>
      S (fold_right (fun kv m => Nat.max (depth (snd kv)) m) O members)
  | _ => O
  end.

Definition image_depth (i : ArticleImage.t) : nat :=
  Nat.max (depth (ArticleImage.caption i)) (depth (ArticleImage.filepath i)).

(** What a call of [to_json] does: it returns a text or raises. *)
Inductive written : Type :=
| Written (text : str)
| RecursionError.

(** [Article.to_json] (lines 33-34) run by an interpreter whose recursion
    limit lets [asdict] and [json.dumps] go through payload values nested
    up to [budget] deep.  The budget depends on the limit set in the
    interpreter and on the depth of the call; with the default limit of
    CPython 3.11 it is a little under 500, while [json.loads] accepts
    values nested almost twice as deep. *)
Definition to_json_within (budget : nat) (py : PyRepr) (a : Article.t)
    : written :=
  if forallb (fun i => (image_depth i <=? budget)%nat) (Article.images a)
  then Written (to_json py a)
  else RecursionError.

(** *** Representation invariants of decoded values *)

(** No key occurs twice in a dictionary. *)
Fixpoint distinct (keys : list str) : bool :=
  match keys with
  | [] => true
  | k :: r => negb (mem k r) && distinct r
  end.

Fixpoint well_formed (v : json) : bool :=
  match v with
  | JArray items => forallb well_formed items
  | JObject members =>
      distinct (map fst members)
      && forallb (fun kv => well_formed (snd kv)) members
  | _ => true
  end.

(** The value holds no float. *)
Fixpoint float_free (v : json) : bool :=
  match v with
  | JFloat _ => false
  | JArray items => forallb float_free items
  | JObject members => forallb (fun kv => float_free (snd kv)) members
  | _ => true
  end.

(** Fuel that lets [scan_once] read back the text of a value. *)
Fixpoint need (v : json) : nat :=
  match v with
  | JArray items =>
      S (Nat.max (length items) (fold_right (fun x m => Nat.max (need x) m) O items))
  | JObject members =>
      S (Nat.max (length members)
                 (fold_right (fun kv m => Nat.max (need (snd kv)) m) O members))
  | _ => 1%nat
  end.

(** What may follow a value in the text [dumps] writes: nothing, a comma,
    or a closing bracket or brace. *)
Definition terminated (rest : str) : bool :=
  match rest with
  | [] => true
  | c :: _ => (c =? 44) || (c =? 93) || (c =? 125)
  end.

(** The payload values an image carries are well formed, and hold no
    float. *)
Definition image_well_formed (i : ArticleImage.t) : bool :=
  well_formed (ArticleImage.caption i)
  && well_formed (ArticleImage.filepath i).

Definition image_float_free (i : ArticleImage.t) : bool :=
  float_free (ArticleImage.caption i)
  && float_free (ArticleImage.filepath i).

Definition well_formed_dict (d : list (str * json)) : bool :=
  distinct (map fst d) && forallb (fun kv => well_formed (snd kv)) d.

(** *** Floats

    A float is kept as the literal it was read from, so two literals of
    the same double are two values of the embedding.  After
    [json.loads(json.dumps(v))] a float is the same double, in the literal
    [json.dumps] writes for it. *)
Fixpoint canonical (py : PyRepr) (v : json) : json :=
  match v with
  | JFloat l => JFloat (float_text (repr_float py l))
  | JArray items => JArray (map (canonical py) items)
  | JObject members =>
      JObject (map (fun kv => (fst kv, canonical py (snd kv))) members)
  | _ => v
  end.

(** [l] is a float literal: wherever a value may stand, the scanner reads
    exactly [l], as a float. *)
Definition float_literal (l : str) : Prop :=
  forall f rest, terminated rest = true ->
                 scan_once (S f) (l ++ rest) = Some (JFloat l, rest).

(** What the embedding needs to know of [float.__repr__]: [json.dumps]
    writes every float as a literal that [json.loads] reads as a float
    (in CPython: digits with a fraction or an exponent, or one of [NaN],
    [Infinity], [-Infinity]). *)
Definition floats_read_back (py : PyRepr) : Prop :=
  forall l, float_literal (float_text (repr_float py l)).

(** *** Notions used when reading back the text of a value *)

(** A character that can start the text of a value: it is neither
    whitespace nor a closing bracket or brace. *)
Definition opens_value (c : N) : Prop :=
  is_json_ws c = false /\ c <> 93 /\ c <> 125.

(** [v] has no float, and its text followed by a terminator is read back
    by [pv]. *)
Definition reads_back (py : PyRepr) (pv : str -> option (json * str))
    (v : json) : Prop :=
  float_free v = true
  /\ forall rest, terminated rest = true ->
                  pv (dumps py v ++ rest) = Some (v, rest).

(** The text [dumps] writes for a member. *)
Definition member_text (py : PyRepr) (kv : str * json) : str :=
  encode_basestring (fst kv) ++ u ": " ++ dumps py (snd kv).

(** The text of [v] followed by a terminator is read back by [pv], floats
    in their canonical literal. *)
Definition reads_canonical (py : PyRepr) (pv : str -> option (json * str))
    (v : json) : Prop :=
  forall rest, terminated rest = true ->
               pv (dumps py v ++ rest) = Some (canonical py v, rest).

(** [pv] consumes input whenever it succeeds. *)
Definition consumes (pv : str -> option (json * str)) : Prop :=
  forall t v r, pv t = Some (v, r) -> (length r < length t)%nat.

(** ** [Case.to_json]

    Modelled from the spec: [Case.to_json] of [src/models/case.py], which
    is not among the source files.  The specification gives both records
    the same serialization, so it is taken to be that of [Article]:
    [json.dumps(asdict(self), ensure_ascii=False)]. *)

Definition asdict_case_image (i : CaseImage.t) : json :=
  JObject [(u "image_id", JString (CaseImage.image_id i));
           (u "modality", JString (CaseImage.modality i));
           (u "plane", JString (CaseImage.plane i));
           (u "filepath", JString (CaseImage.filepath i));
           (u "caption", JString (CaseImage.caption i));
           (u "annotations",
            JObject (map (fun kv => (fst kv, JString (snd kv)))
                         (CaseImage.annotations i)))].

Definition asdict_case (c : Case.t) : json :=
  JObject [(u "source", JString (Case.source c));
           (u "source_id", JString (Case.source_id c));
           (u "title", JString (Case.title c));
           (u "body_system", JString (Case.body_system c));
           (u "body_part", JString (Case.body_part c));
           (u "modality", JArray (map JString (Case.modality c)));
           (u "clinical_presentation",
            JString (Case.clinical_presentation c));
           (u "diagnosis",
            JObject [(u "text", JString (diagnosis_text (Case.diagnosis c)));
                     (u "certainty", JString (certainty (Case.diagnosis c)))]);
           (u "narrative",
            JObject [(u "findings", JString (findings (Case.narrative c)));
                     (u "impression", JString (impression (Case.narrative c)));
                     (u "discussion",
                      JString (discussion (Case.narrative c)))]);
           (u "images", JArray (map asdict_case_image (Case.images c)));
           (u "tags", JArray (map JString (Case.tags c)));
           (u "metadata", asdict_metadata (Case.metadata c))].

Definition case_to_json (py : PyRepr) (c : Case.t) : str :=
  dumps py (asdict_case c).

(** ** Notions used by the further properties *)

(** A character other than whitespace. *)
Definition non_space (c : N) : bool := negb (isspace c).

(** Every data item below the patient-data anchor has a label element. *)
Definition all_items_labelled (sp : soup) : Prop :=
  match select_one Anchors.patient_data sp with
  | Some patient_data =>
      Forall (fun item =>
                tag_select_one Anchors.data_item_label item <> None)
             (tag_select Anchors.data_item patient_data)
  | None => True
  end.

(** The [CaseImage] the loop appends for the carousel item number [k]
    (counted from 1) with source [src]. *)
Definition case_image_at (source_id : str) (k : N) (src : str)
    : CaseImage.t :=
  CaseImage.mk (source_id ++ u "_img_" ++ str_of_N k)
               (u "Unknown") (u "Unknown") src
               (u "Image " ++ str_of_N k ++ u " from case") [].

(** The non-empty [src] of a carousel item, if it has one. *)
Definition usable_src (img : node) : list str :=
  match get (u "src") img with
  | Some (c :: s) => [c :: s]
  | _ => []
  end.

(** A child the segmentation loop looks at: a heading of level 2 to 4, a
    paragraph or an unordered list. *)
Definition is_segment_child (child : node) : bool :=
  match name child with
  | Some nm => is_heading nm || str_eqb nm (u "p") || str_eqb nm (u "ul")
  | None => false
  end.

Definition is_upper_ascii (c : N) : bool := (65 <=? c) && (c <=? 90).

(** [item] is a dictionary. *)
Definition is_object (item : json) : bool :=
  match item with JObject _ => true | _ => false end.

Definition has_key (key : str) (d : list (str * json)) : bool :=
  mem key (map fst d).

(** Further sample pages. *)
Module Pages.

(** Three carousel items, the second without [src]. *)
Definition carousel : soup :=
  [Samples.elem "li" "_StudyCarouselHeader_ImageListItem"
     [Element (u "img") [(u "src", u "a.png")] []];
   Samples.elem "li" "_StudyCarouselHeader_ImageListItem"
     [Element (u "img") [(u "alt", u "x")] []];
   Samples.elem "li" "_StudyCarouselHeader_ImageListItem"
     [Element (u "img") [(u "src", u "c.png")] []]].

(** An article body whose list and paragraph are wrapped in a [div], next
    to a direct paragraph and a text node. *)
Definition body_with_wrapped_content : list node :=
  [Text (u "loose text");
   Samples.plain "div" [Samples.plain "p" [Text (u "wrapped")]];
   Samples.plain "p" [Text (u "direct")]].

(** A printer of floats for the examples: it knows the double of the
    literals [1.50] and [NaN], and takes any other literal for zero. *)
Definition py_sample : PyRepr :=
  mkPyRepr (fun l => if str_eqb l (u "1.50") then u "1.5"
                     else if str_eqb l (u "NaN") then u "nan"
                     else u "0.0")
           (fun s => s).

(** An article page whose only image has a float for a caption. *)
Definition article_float_caption : soup :=
  Samples.with_viewer_data
    (Samples.dq "{'inclusions':[{'imageId':'5','caption':1.50}]}").

(** [n + 1] arrays, one inside the other. *)
Fixpoint nested_arrays (n : nat) : json :=
  match n with
  | O => JArray []
  | S k => JArray [nested_arrays k]
  end.

(** An article page whose only image has for a caption 600 arrays, one
    inside the other. *)
Definition article_deep_caption : soup :=
  Samples.with_viewer_data
    (Samples.dq "{'inclusions':[{'caption':"
     ++ repeat 91 600 ++ repeat 93 600 ++ u "}]}").

End Pages.

(** A code point outside the C0 controls (U+0000 to U+001F). *)
Definition above_c0 (c : N) : bool := 32 <=? c.

(** A code point [encode_basestring] writes as it is. *)
Definition written_raw (c : N) : bool :=
  (32 <=? c) && negb (c =? 34) && negb (c =? 92).

(** Every code point of [s] is at most U+00FF, the range on which [lower]
    is [str.lower()]. *)
Definition latin1 (s : str) : bool := forallb (fun c => c <? 256) s.

(** The number of digits up to which [int()] converts a string: the
    default of [sys.get_int_max_str_digits()] from CPython 3.11 on, beyond
    which [int()] raises [ValueError]. *)
Definition int_max_str_digits : nat := 4300.

(** No data item below the patient-data anchor has a text longer than
    [int_max_str_digits], so that no run of digits in it is. *)
Definition items_within_int_limit (sp : soup) : Prop :=
  match select_one Anchors.patient_data sp with
  | Some patient_data =>
      Forall (fun item => (length (text item) <= int_max_str_digits)%nat)
             (tag_select Anchors.data_item patient_data)
  | None => True
  end.

(** The time stamp the page itself carries: the [datetime] attribute of
    the first [time.date] element. *)
Definition page_date (sp : soup) : option str :=
  match select_one Anchors.date sp with
  | Some d => get (u "datetime") d
  | None => None
  end.


(** * Properties *)

(** ** Strings *)

Lemma str_eqb_eq (a b : str) : str_eqb a b = true <-> a = b.
Proof.
  unfold str_eqb. destruct (list_eq_dec N.eq_dec a b); split; congruence.
Qed.

Lemma str_eqb_refl (a : str) : str_eqb a a = true.
Proof. now apply str_eqb_eq. Qed.

Lemma space_isspace : isspace space = true.
Proof. reflexivity. Qed.

(** ** The text normalizer *)

Lemma sub_ws_from_shape (s : str) :
  forall b,
    single_spaced (sub_ws_from b s) = true
    /\ (b = true -> no_space_at_head (sub_ws_from b s) = true).
Proof.
  induction s as [|c r IH]; intros b; simpl.
  - split; reflexivity.
  - destruct (isspace c) eqn:Hc.
    + destruct b.
      * apply IH.
      * split; [|discriminate].
        destruct (IH true) as [Hs Hh]. specialize (Hh eq_refl).
        simpl. rewrite Hs.
        destruct (sub_ws_from true r) as [|d r']; [reflexivity|].
        simpl in Hh. apply negb_true_iff in Hh. rewrite Hh. reflexivity.
    + destruct (IH false) as [Hs _]. split.
      * simpl. rewrite Hc, Hs. simpl.
        destruct (sub_ws_from false r); reflexivity.
      * intros _. simpl. now rewrite Hc.
Qed.

Lemma single_spaced_app_l (a b : str) :
  single_spaced (a ++ b) = true -> single_spaced a = true.
Proof.
  induction a as [|c a IH]; simpl; [reflexivity|].
  intros H. apply andb_true_iff in H as [H Ht].
  apply andb_true_iff in H as [H1 H2].
  rewrite H1, (IH Ht). simpl.
  destruct a as [|d a']; [reflexivity|]. simpl in H2. now rewrite H2.
Qed.

Lemma single_spaced_app_r (a b : str) :
  single_spaced (a ++ b) = true -> single_spaced b = true.
Proof.
  induction a as [|c a IH]; simpl; [trivial|].
  intros H. apply andb_true_iff in H as [_ Ht]. auto.
Qed.

Lemma lstrip_suffix (s : str) : exists w, s = w ++ lstrip s.
Proof.
  induction s as [|c r [w IH]]; simpl.
  - now exists [].
  - destruct (isspace c).
    + exists (c :: w). simpl. now f_equal.
    + now exists [].
Qed.

Lemma lstrip_head (s : str) : no_space_at_head (lstrip s) = true.
Proof.
  induction s as [|c r IH]; simpl; [reflexivity|].
  destruct (isspace c) eqn:Hc; [assumption|]. simpl. now rewrite Hc.
Qed.

Lemma rstrip_prefix (s : str) : exists w, s = rstrip s ++ w.
Proof.
  unfold rstrip. destruct (lstrip_suffix (rev s)) as [w Hw].
  exists (rev w). rewrite <- rev_app_distr, <- Hw. now rewrite rev_involutive.
Qed.

Lemma rstrip_last (s : str) : no_space_at_head (rev (rstrip s)) = true.
Proof.
  unfold rstrip. rewrite rev_involutive. apply lstrip_head.
Qed.

Lemma prefix_head (a b : str) :
  no_space_at_head (a ++ b) = true -> no_space_at_head a = true.
Proof. destruct a; simpl; auto. Qed.

Lemma strip_normalized (s : str) :
  single_spaced s = true -> normalized (strip s) = true.
Proof.
  intros Hs. unfold normalized, strip.
  destruct (lstrip_suffix s) as [w Hw].
  destruct (rstrip_prefix (lstrip s)) as [w' Hw'].
  assert (H1 : single_spaced (lstrip s) = true).
  { apply single_spaced_app_r with w. now rewrite <- Hw. }
  assert (H2 : single_spaced (rstrip (lstrip s)) = true).
  { apply single_spaced_app_l with w'. now rewrite <- Hw'. }
  assert (H3 : no_space_at_head (rstrip (lstrip s)) = true).
  { apply prefix_head with w'. rewrite <- Hw'. apply lstrip_head. }
  now rewrite H2, H3, rstrip_last.
Qed.

(** Whatever goes in, what [clean_text] returns is normalized. *)
Lemma clean_text_normalized (t : option str) :
  normalized (clean_text t) = true.
Proof.
  destruct t as [[|c r]|]; try reflexivity.
  unfold clean_text. apply strip_normalized.
  apply (sub_ws_from_shape (c :: r) false).
Qed.

(** A string without whitespace is left as it is. *)
Lemma sub_ws_from_no_space (s : str) (b : bool) :
  forallb (fun c => negb (isspace c)) s = true -> sub_ws_from b s = s.
Proof.
  revert b. induction s as [|c r IH]; intros b; simpl; [reflexivity|].
  intros H. apply andb_true_iff in H as [Hc Hr].
  apply negb_true_iff in Hc. rewrite Hc. now rewrite IH.
Qed.

Lemma lstrip_no_space (s : str) :
  forallb (fun c => negb (isspace c)) s = true -> lstrip s = s.
Proof.
  destruct s as [|c r]; simpl; [reflexivity|].
  intros H. apply andb_true_iff in H as [Hc _].
  apply negb_true_iff in Hc. now rewrite Hc.
Qed.

Lemma clean_text_no_space (s : str) :
  forallb (fun c => negb (isspace c)) s = true -> clean_text (Some s) = s.
Proof.
  intros H. destruct s as [|c r]; [reflexivity|].
  unfold clean_text, re_sub_ws, strip, rstrip.
  rewrite (sub_ws_from_no_space _ false H), (lstrip_no_space _ H).
  rewrite lstrip_no_space, rev_involutive; [reflexivity|].
  rewrite forallb_forall in *. intros x Hx. apply H. now apply in_rev.
Qed.

Lemma isdigit_not_space (c : N) : isdigit c = true -> isspace c = false.
Proof.
  unfold isdigit, isspace. intros H.
  apply andb_true_iff in H as [H1 H2].
  apply N.leb_le in H1. apply N.leb_le in H2.
  repeat match goal with
  | |- context [?a <=? ?b] =>
      let E := fresh in destruct (N.leb_spec a b) as [E|E]; try lia
  | |- context [?a =? ?b] =>
      let E := fresh in destruct (N.eqb_spec a b) as [E|E]; try lia
  end; try reflexivity.
Qed.

Lemma clean_text_digits (ds : str) :
  forallb isdigit ds = true -> clean_text (Some ds) = ds.
Proof.
  intros H. apply clean_text_no_space.
  rewrite forallb_forall in *. intros x Hx.
  apply negb_true_iff, isdigit_not_space. auto.
Qed.

(** ** [scrape_case] *)

Lemma scrape_case_unfold (url now : str) (sp : soup) :
  scrape_case url now sp
  = (do _ <- extract_patient sp ;; Ok (case_record url now sp)).
Proof. reflexivity. Qed.

Lemma scrape_case_ok (url now : str) (sp : soup) (c : Case.t) :
  scrape_case url now sp = Ok c -> c = case_record url now sp.
Proof.
  rewrite scrape_case_unfold. destruct (extract_patient sp); simpl.
  - now intros [= <-].
  - discriminate.
Qed.

Lemma scrape_case_returns (url now : str) (sp : soup) (p : Patient) :
  extract_patient sp = Ok p ->
  scrape_case url now sp = Ok (case_record url now sp).
Proof. intros H. rewrite scrape_case_unfold, H. reflexivity. Qed.

Lemma scrape_case_raises (url now : str) (sp : soup) (e : exn) :
  extract_patient sp = Raise e -> scrape_case url now sp = Raise e.
Proof. intros H. rewrite scrape_case_unfold, H. reflexivity. Qed.

Lemma patient_step_no_label (item : node) (p : Patient) :
  tag_select_one Anchors.data_item_label item = None ->
  patient_step item p = Raise AttributeError.
Proof. intros H. unfold patient_step. rewrite H. reflexivity. Qed.

Lemma patient_loop_no_label (items : list node) :
  forall p,
    (exists item, In item items
                  /\ tag_select_one Anchors.data_item_label item = None) ->
    patient_loop items p = Raise AttributeError.
Proof.
  induction items as [|it r IH]; intros p [item [Hin Hnone]].
  - destruct Hin.
  - simpl. destruct Hin as [-> | Hin].
    + now rewrite patient_step_no_label.
    + destruct (patient_step it p) as [p'|[]]; simpl; [|reflexivity].
      apply IH. now exists item.
Qed.

(** C10.  When the patient-data anchor is present and one of its data
    items has no label element, [scrape_case] raises [AttributeError]: no
    record is returned. *)
Theorem scrape_case_missing_label_raises
    (url now : str) (sp : soup) (patient_data : node) :
  select_one Anchors.patient_data sp = Some patient_data ->
  (exists item,
      In item (tag_select Anchors.data_item patient_data)
      /\ tag_select_one Anchors.data_item_label item = None) ->
  scrape_case url now sp = Raise AttributeError.
Proof.
  intros Hpd Hitem. apply scrape_case_raises.
  unfold extract_patient. rewrite Hpd.
  now apply patient_loop_no_label.
Qed.

Lemma scrape_case_missing_label_raises_witness :
  scrape_case (u "url") (u "now") Samples.patient_no_label
  = Raise AttributeError.
Proof.
  eapply scrape_case_missing_label_raises.
  - reflexivity.
  - eexists. split; [left; reflexivity | reflexivity].
Defined.

(** C8.  The modality of a returned case is a list of one element: ["CT"]
    when the string ["ct"] is one of the extracted tags, ["X-ray"]
    otherwise. *)
Theorem scrape_case_modality (url now : str) (sp : soup) (c : Case.t) :
  scrape_case url now sp = Ok c ->
  Case.tags c
  = map (fun a => clean_text (Some (text a))) (select Anchors.tags sp)
  /\ length (Case.modality c) = 1%nat
  /\ (mem (u "ct") (Case.tags c) = true -> Case.modality c = [u "CT"])
  /\ (mem (u "ct") (Case.tags c) = false -> Case.modality c = [u "X-ray"]).
Proof.
  intros H. apply scrape_case_ok in H. subst c. simpl.
  repeat split; intros ->; reflexivity.
Qed.

Lemma scrape_case_modality_witness :
  (exists c, scrape_case (u "url") (u "now") (Samples.tagged "ct") = Ok c
             /\ Case.modality c = [u "CT"])
  /\ (exists c, scrape_case (u "url") (u "now") (Samples.tagged "CT") = Ok c
                /\ Case.modality c = [u "X-ray"]).
Proof.
  split; eexists; (split; [reflexivity|]).
  - apply (scrape_case_modality (u "url") (u "now") (Samples.tagged "ct")
             eq_refl). reflexivity.
  - apply (scrape_case_modality (u "url") (u "now") (Samples.tagged "CT")
             eq_refl). reflexivity.
Defined.

(** ** [scrape_article] *)

Section ArticleFacts.

Variable py : PyRepr.

Lemma scrape_article_no_title (url now : str) (sp : soup) :
  select_one Anchors.header_title sp = None ->
  scrape_article py url now sp = Raise AttributeError.
Proof. intros H. unfold scrape_article. rewrite H. reflexivity. Qed.

Lemma scrape_article_returns (url now : str) (sp : soup) (h : node) :
  select_one Anchors.header_title sp = Some h ->
  scrape_article py url now sp = Ok (article_record py url now sp h).
Proof. intros H. unfold scrape_article. rewrite H. reflexivity. Qed.

Lemma scrape_article_ok (url now : str) (sp : soup) (a : Article.t) :
  scrape_article py url now sp = Ok a ->
  exists h, select_one Anchors.header_title sp = Some h
            /\ a = article_record py url now sp h.
Proof.
  unfold scrape_article.
  destruct (select_one Anchors.header_title sp) as [h|]; simpl.
  - intros [= <-]. now exists h.
  - discriminate.
Qed.

End ArticleFacts.

(** ** Title and identifier *)

(** C1.  On a document without the title heading, [scrape_case] falls back
    to ["Untitled"], whereas [scrape_article] reads [.text] of the missing
    node and raises [AttributeError]: the default is not applied there. *)
Theorem title_default_only_in_scrape_case
    (py : PyRepr) (url now : str) (sp : soup) :
  select_one Anchors.header_title sp = None ->
  (forall c, scrape_case url now sp = Ok c -> Case.title c = u "Untitled")
  /\ scrape_article py url now sp = Raise AttributeError.
Proof.
  intros H. split.
  - intros c Hc. apply scrape_case_ok in Hc. subst c. simpl.
    now rewrite H.
  - now apply scrape_article_no_title.
Qed.

Lemma title_default_only_in_scrape_case_witness :
  (exists c, scrape_case (u "url") (u "now") Samples.blank = Ok c
             /\ Case.title c = u "Untitled")
  /\ scrape_article Samples.py0 (u "url") (u "now") Samples.blank
     = Raise AttributeError.
Proof.
  destruct (title_default_only_in_scrape_case
              Samples.py0 (u "url") (u "now") Samples.blank eq_refl)
    as [Hcase Harticle].
  split; [|exact Harticle].
  eexists. split; [reflexivity|]. apply Hcase. reflexivity.
Defined.

(** C6, as stated, fails: the text after ["rID-"] is the whole normalized
    anchor text, whatever its characters, not its digits. *)
Lemma identifier_keeps_non_digits :
  (exists c,
      scrape_case (u "url") (u "now") Samples.case_rid_mixed = Ok c
      /\ Case.source_id c = u "rID-a1"
      /\ forall ds, forallb isdigit ds = true ->
                    Case.source_id c <> u "rID-" ++ ds)
  /\ (exists a,
         scrape_article Samples.py0 (u "url") (u "now")
                        Samples.article_rid_mixed = Ok a
         /\ Article.source_id a = u "rID-a1"
         /\ forall ds, forallb isdigit ds = true ->
                       Article.source_id a <> u "rID-" ++ ds).
Proof.
  split; eexists; (split; [reflexivity|]); (split; [reflexivity|]);
    intros ds Hds Heq; vm_compute in Heq; injection Heq as <-;
    discriminate Hds.
Qed.

(** C6, amended.  The identifier is ["unknown"] when the anchor region is
    absent and otherwise ["rID-"] followed by the normalized text of the
    region (the digits themselves when that text consists of digits); it
    is never the empty string.  This holds for the record either entry
    point returns. *)
Theorem identifier_extraction (py : PyRepr) (url now : str) (sp : soup) :
  (forall c, scrape_case url now sp = Ok c ->
             Case.source_id c
             = identifier_of (select_one Anchors.case_rid sp)
             /\ Case.source_id c <> [])
  /\ (forall a, scrape_article py url now sp = Ok a ->
                Article.source_id a
                = identifier_of (select_one Anchors.article_rid sp)
                /\ Article.source_id a <> [])
  /\ identifier_of None = u "unknown"
  /\ (forall d, identifier_of (Some d)
                = u "rID-" ++ clean_text (Some (text d)))
  /\ (forall d, forallb isdigit (text d) = true ->
                identifier_of (Some d) = u "rID-" ++ text d).
Proof.
  assert (Hne : forall r, identifier_of r <> []).
  { intros [d|]; discriminate. }
  repeat split.
  - apply scrape_case_ok in H. now subst c.
  - apply scrape_case_ok in H. subst c. apply Hne.
  - apply scrape_article_ok in H as [h [_ ->]]. reflexivity.
  - apply scrape_article_ok in H as [h [_ ->]]. apply Hne.
  - intros d Hd. unfold identifier_of. now rewrite clean_text_digits.
Qed.

Lemma identifier_extraction_witness :
  (exists c, scrape_case (u "url") (u "now") Samples.case_rid_digits = Ok c
             /\ Case.source_id c = u "rID-8654")
  /\ (exists a, scrape_article Samples.py0 (u "url") (u "now")
                               Samples.titled = Ok a
                /\ Article.source_id a = u "unknown").
Proof.
  destruct (identifier_extraction Samples.py0 (u "url") (u "now")
              Samples.case_rid_digits) as [Hc _].
  destruct (identifier_extraction Samples.py0 (u "url") (u "now")
              Samples.titled) as [_ [Ha _]].
  split; eexists; (split; [reflexivity|]).
  - now apply Hc.
  - now apply Ha.
Defined.

(** ** Patient data *)

Lemma extract_patient_no_anchor (sp : soup) :
  select_one Anchors.patient_data sp = None ->
  extract_patient sp = Ok patient_init.
Proof. intros H. unfold extract_patient. now rewrite H. Qed.

(** C4.  Without the patient-data anchor the loop leaves age and sex at
    [None].  On the two-item layout the loop finds age 34 but keeps the
    blank that separated label and value, so sex is [" female"]; with the
    sentence under one age label, sex stays [None].  In every case the
    record [scrape_case] returns is the one it returns for the same page
    without patient data: [patient] is never handed to [Case]. *)
Theorem patient_data_extracted_then_dropped :
  (forall sp, select_one Anchors.patient_data sp = None ->
              extract_patient sp = Ok patient_init)
  /\ age patient_init = None /\ sex patient_init = None
  /\ extract_patient Samples.patient_two_items
     = Ok (mkPatient (Some 34%Z) (u "years") (Some (u " female")) None)
  /\ extract_patient Samples.patient_one_item
     = Ok (mkPatient (Some 34%Z) (u "years") None None)
  /\ (forall url now sp p,
        extract_patient sp = Ok p ->
        scrape_case url now sp = Ok (case_record url now sp))
  /\ (forall url now,
        scrape_case url now Samples.patient_two_items
        = scrape_case url now []).
Proof.
  repeat split.
  - apply extract_patient_no_anchor.
  - intros url now sp p. apply scrape_case_returns.
Qed.

Lemma patient_data_extracted_then_dropped_witness :
  extract_patient Samples.blank = Ok patient_init
  /\ scrape_case (u "url") (u "now") Samples.patient_one_item
     = Ok (case_record (u "url") (u "now") Samples.patient_one_item).
Proof.
  destruct patient_data_extracted_then_dropped
    as [Hnone [_ [_ [_ [Hone [Hret _]]]]]].
  split.
  - apply Hnone. reflexivity.
  - eapply Hret. exact Hone.
Defined.

(** ** Embedded data *)

Section EmbeddedDataFacts.

Variable py : PyRepr.

Lemma article_images_no_node (sp : soup) :
  select_one Anchors.viewer_data sp = None -> article_images py sp = [].
Proof. intros H. unfold article_images. now rewrite H. Qed.

Lemma article_images_decode_failure (sp : soup) (viewer_data : node) :
  select_one Anchors.viewer_data sp = Some viewer_data ->
  json_loads (text viewer_data) = None ->
  article_images py sp = [].
Proof. intros H1 H2. unfold article_images. now rewrite H1, H2. Qed.

Lemma images_loop_constants (items : list json) :
  Forall (fun i => ArticleImage.modality i = Some (u "Unknown")
                   /\ ArticleImage.plane i = None
                   /\ ArticleImage.figure_label i = None)
         (images_loop py items).
Proof.
  induction items as [|item r IH]; simpl; [constructor|].
  destruct item; simpl; try constructor; auto.
Qed.

Lemma article_images_constants (sp : soup) :
  Forall (fun i => ArticleImage.modality i = Some (u "Unknown")
                   /\ ArticleImage.plane i = None
                   /\ ArticleImage.figure_label i = None)
         (article_images py sp).
Proof.
  unfold article_images.
  destruct (select_one Anchors.viewer_data sp) as [vd|]; [|constructor].
  destruct (json_loads (text vd)) as [[| | | | | |d]|]; try constructor.
  unfold images_of_inclusions.
  destruct (dict_get (u "inclusions") d (JArray [])); try constructor.
  apply images_loop_constants.
Qed.

End EmbeddedDataFacts.

(** C7.  When the hidden data node is absent, or its text does not decode,
    the image list is empty and the reader raises nothing: every record
    [scrape_article] returns has no images, and it does return one
    whenever the title heading is there. *)
Theorem no_images_without_decodable_data
    (py : PyRepr) (url now : str) (sp : soup) :
  select_one Anchors.viewer_data sp = None
  \/ (exists viewer_data,
         select_one Anchors.viewer_data sp = Some viewer_data
         /\ json_loads (text viewer_data) = None) ->
  article_images py sp = []
  /\ (forall a, scrape_article py url now sp = Ok a -> Article.images a = [])
  /\ (forall h, select_one Anchors.header_title sp = Some h ->
                exists a, scrape_article py url now sp = Ok a
                          /\ Article.images a = []).
Proof.
  intros H.
  assert (Himg : article_images py sp = []).
  { destruct H as [H | [vd [H1 H2]]].
    - now apply article_images_no_node.
    - now apply article_images_decode_failure with vd. }
  split; [exact Himg|]. split.
  - intros a Ha. apply scrape_article_ok in Ha as [h [_ ->]]. exact Himg.
  - intros h Hh. eexists. split.
    + apply scrape_article_returns. exact Hh.
    + exact Himg.
Qed.

Lemma no_images_without_decodable_data_witness :
  (exists a, scrape_article Samples.py0 (u "url") (u "now") Samples.titled
             = Ok a /\ Article.images a = [])
  /\ (exists a, scrape_article Samples.py0 (u "url") (u "now")
                               Samples.article_bad_payload = Ok a
                /\ Article.images a = []).
Proof.
  split.
  - destruct (no_images_without_decodable_data
                Samples.py0 (u "url") (u "now") Samples.titled
                (or_introl eq_refl)) as [_ [_ H]].
    exact (H _ eq_refl).
  - assert (Hbad :
        select_one Anchors.viewer_data Samples.article_bad_payload = None
        \/ (exists viewer_data,
               select_one Anchors.viewer_data Samples.article_bad_payload
               = Some viewer_data
               /\ json_loads (text viewer_data) = None)).
    { right. eexists. split; [reflexivity | vm_compute; reflexivity]. }
    destruct (no_images_without_decodable_data
                Samples.py0 (u "url") (u "now") Samples.article_bad_payload
                Hbad) as [_ [_ H]].
    exact (H _ eq_refl).
Defined.

(** C3, as stated, fails: the image decoded from the payload of scenario D
    has its modality set, to the string ["Unknown"]. *)
Lemma scenario_D_modality_is_set :
  exists a i,
    scrape_article Samples.py0 (u "url") (u "now") Samples.article_scenario_D
    = Ok a
    /\ Article.images a = [i]
    /\ ArticleImage.modality i = Some (u "Unknown")
    /\ ArticleImage.modality i <> None.
Proof.
  eexists. eexists. split; [vm_compute; reflexivity|].
  split; [reflexivity|]. split; [reflexivity | discriminate].
Qed.

(** C3, amended.  When the text of the hidden data node is the payload of
    scenario D, the image list is exactly one [ArticleImage] with
    identifier ["5"], caption ["c"], file reference ["u"], no figure
    label, no plane, and the modality ["Unknown"]; this is the list of the
    record [scrape_article] returns.  In general every image decoded from
    embedded data has modality ["Unknown"] and plane [None]. *)
Theorem scenario_D_image
    (py : PyRepr) (url now : str) (sp : soup) (viewer_data : node) :
  select_one Anchors.viewer_data sp = Some viewer_data ->
  text viewer_data = Samples.scenario_D_payload ->
  let img :=
    ArticleImage.mk (u "5") None (Some (u "Unknown")) None
                    (JString (u "c")) (JString (u "u")) in
  article_images py sp = [img]
  /\ (forall a, scrape_article py url now sp = Ok a ->
                Article.images a = [img])
  /\ (forall h, select_one Anchors.header_title sp = Some h ->
                exists a, scrape_article py url now sp = Ok a
                          /\ Article.images a = [img])
  /\ (forall sp',
        Forall (fun i => ArticleImage.modality i = Some (u "Unknown")
                         /\ ArticleImage.plane i = None)
               (article_images py sp')).
Proof.
  intros Hvd Htext img.
  assert (Himg : article_images py sp = [img]).
  { unfold article_images. rewrite Hvd, Htext.
    replace (json_loads Samples.scenario_D_payload)
      with (Some (JObject
                    [(u "inclusions",
                      JArray [JObject [(u "imageId", JString (u "5"));
                                       (u "caption", JString (u "c"));
                                       (u "thumbnail", JString (u "u"))]])]))
      by (vm_compute; reflexivity).
    reflexivity. }
  split; [exact Himg|]. split; [|split].
  - intros a Ha. apply scrape_article_ok in Ha as [h [_ ->]]. exact Himg.
  - intros h Hh. eexists. split.
    + apply scrape_article_returns. exact Hh.
    + exact Himg.
  - intros sp'. eapply Forall_impl; [|apply article_images_constants].
    simpl. intros i [H1 [H2 _]]. now split.
Qed.

Lemma scenario_D_image_witness :
  exists a,
    scrape_article Samples.py0 (u "url") (u "now") Samples.article_scenario_D
    = Ok a
    /\ Article.images a
       = [ArticleImage.mk (u "5") None (Some (u "Unknown")) None
                          (JString (u "c")) (JString (u "u"))].
Proof.
  destruct (scenario_D_image Samples.py0 (u "url") (u "now")
              Samples.article_scenario_D
              (viewer_data :=
                 Samples.elem "div" "hidden data"
                              [Text Samples.scenario_D_payload])
              eq_refl eq_refl) as [_ [_ [H _]]].
  exact (H _ eq_refl).
Defined.

(** ** Section segmentation *)

Lemma flush_groups (secs : list ArticleSection.t) (title : str)
    (lines : list str) :
  flush secs title lines = secs ++ sections_of_groups [(title, lines)].
Proof.
  destruct lines as [|l ls]; simpl.
  - now rewrite app_nil_r.
  - reflexivity.
Qed.

Lemma sections_of_groups_cons (title : str) (lines : list str)
    (groups : list (str * list str)) :
  sections_of_groups ((title, lines) :: groups)
  = sections_of_groups [(title, lines)] ++ sections_of_groups groups.
Proof.
  unfold sections_of_groups. simpl.
  destruct (has_lines (title, lines)); reflexivity.
Qed.

(** The loop and the direct description agree, from any loop state. *)
Lemma segment_groups (kids : list node) :
  forall secs title lines,
    segment kids secs title lines
    = secs
      ++ sections_of_groups
           ((title, lines ++ fst (split_at_headings kids))
              :: snd (split_at_headings kids)).
Proof.
  induction kids as [|child r IH]; intros secs title lines.
  - simpl. rewrite app_nil_r. apply flush_groups.
  - simpl. destruct (split_at_headings r) as [pre groups] eqn:Hsplit.
    simpl in IH. unfold is_heading_node, child_lines.
    destruct (name child) as [nm|].
    + destruct (is_heading nm) eqn:Hh.
      * rewrite IH. simpl fst. simpl snd. rewrite app_nil_r.
        rewrite flush_groups, <- app_assoc. f_equal.
        now rewrite (sections_of_groups_cons title lines (_ :: _)).
      * destruct (str_eqb nm (u "p")).
        { rewrite IH. simpl fst. simpl snd. now rewrite <- app_assoc. }
        destruct (str_eqb nm (u "ul")).
        { rewrite IH. simpl fst. simpl snd. now rewrite <- app_assoc. }
        rewrite IH. reflexivity.
    + rewrite IH. reflexivity.
Qed.

Lemma split_titles (kids : list node) :
  map fst (snd (split_at_headings kids)) = heading_titles kids.
Proof.
  unfold heading_titles.
  induction kids as [|child r IH]; simpl; [reflexivity|].
  destruct (split_at_headings r) as [pre groups]. simpl in IH.
  destruct (is_heading_node child); simpl; now rewrite IH.
Qed.

Lemma map_title_sections_of_groups (groups : list (str * list str)) :
  map ArticleSection.title (sections_of_groups groups)
  = map fst (filter has_lines groups).
Proof.
  unfold sections_of_groups. rewrite map_map. reflexivity.
Qed.

(** C2, as stated, fails: content before the first heading yields a
    section titled ["Introduction"] that no heading names, and a heading
    without content before the next heading yields no section. *)
Lemma section_titles_differ_from_headings :
  (exists a,
      scrape_article Samples.py0 (u "url") (u "now")
                     (Samples.with_content Samples.body_no_heading) = Ok a
      /\ map ArticleSection.title (Article.sections a) = [u "Introduction"]
      /\ heading_titles Samples.body_no_heading = []
      /\ map ArticleSection.title (Article.sections a)
         <> heading_titles Samples.body_no_heading)
  /\ (exists a,
         scrape_article Samples.py0 (u "url") (u "now")
                        (Samples.with_content Samples.body_empty_heading)
         = Ok a
         /\ map ArticleSection.title (Article.sections a) = [u "B"]
         /\ heading_titles Samples.body_empty_heading = [u "A"; u "B"]
         /\ map ArticleSection.title (Article.sections a)
            <> heading_titles Samples.body_empty_heading).
Proof.
  split; eexists; (split; [reflexivity|]);
    repeat (split; [reflexivity|]); discriminate.
Qed.

(** C2, amended.  Cut the children of the content container at its
    heading elements (levels 2 to 4): the titles of the returned sections
    are, in document order, ["Introduction"] when a paragraph or list item
    precedes the first heading, followed by the cleaned text of each
    heading that has a paragraph or list item before the next heading;
    the headings without such content are left out.  Without the content
    container there is no section. *)
Theorem section_titles_follow_headings
    (py : PyRepr) (url now : str) (sp : soup) (a : Article.t) :
  scrape_article py url now sp = Ok a ->
  match select_one Anchors.content sp with
  | Some content_div =>
      let kids := children content_div in
      let intro := fst (split_at_headings kids) in
      let groups := snd (split_at_headings kids) in
      map fst groups = heading_titles kids
      /\ Article.sections a
         = sections_of_groups ((u "Introduction", intro) :: groups)
      /\ map ArticleSection.title (Article.sections a)
         = map fst (filter has_lines ((u "Introduction", intro) :: groups))
  | None => Article.sections a = []
  end.
Proof.
  intros Ha. apply scrape_article_ok in Ha as [h [_ ->]]. simpl.
  unfold article_sections.
  destruct (select_one Anchors.content sp) as [content_div|];
    [|reflexivity].
  cbv zeta. split; [apply split_titles|].
  rewrite segment_groups. simpl app.
  split; [reflexivity | apply map_title_sections_of_groups].
Qed.

Lemma section_titles_follow_headings_witness :
  exists a,
    scrape_article Samples.py0 (u "url") (u "now")
                   (Samples.with_content Samples.body_scenario_C) = Ok a
    /\ map ArticleSection.title (Article.sections a)
       = [u "Findings"; u "Discussion"].
Proof.
  eexists. split; [reflexivity|].
  destruct (section_titles_follow_headings
              Samples.py0 (u "url") (u "now")
              (Samples.with_content Samples.body_scenario_C) eq_refl)
    as [_ [_ H]].
  exact H.
Defined.

(** C5.  A list-item line is stored as ["- "] followed by the raw text of
    the item: the two blanks of the sample item are still there in the
    returned section, which is therefore not normalized, while the
    paragraph branch stores the same raw text cleaned. *)
Theorem list_item_lines_skip_the_normalizer :
  (exists a s,
      scrape_article Samples.py0 (u "url") (u "now")
                     (Samples.with_content Samples.body_list_item) = Ok a
      /\ Article.sections a = [s]
      /\ ArticleSection.markdown s = u "- a  b"
      /\ normalized (ArticleSection.markdown s) = false)
  /\ (exists a s,
         scrape_article Samples.py0 (u "url") (u "now")
                        (Samples.with_content Samples.body_paragraph) = Ok a
         /\ Article.sections a = [s]
         /\ ArticleSection.markdown s = u "a b"
         /\ normalized (ArticleSection.markdown s) = true).
Proof.
  split; eexists; eexists; (split; [reflexivity|]);
    repeat (split; [reflexivity|]); reflexivity.
Qed.

(** ** Reading back what [dumps] writes *)

(** *** Strings *)

Lemma small_cases (P : N -> Prop) :
  (forall n, (n < 32)%nat -> P (N.of_nat n)) ->
  forall c, (c <=? 31) = true -> P c.
Proof.
  intros H c Hc. apply N.leb_le in Hc.
  rewrite <- (N2Nat.id c). apply H. lia.
Qed.

Lemma hex4_control (c : N) :
  (c <=? 31) = true ->
  hex4 48 48 (hex_char (c / 16)) (hex_char (c mod 16)) = Some c
  /\ is_high_surrogate c = false.
Proof.
  revert c. apply small_cases. intros n Hn.
  do 32 (destruct n as [|n]; [split; reflexivity|]). lia.
Qed.

Lemma scanstring_quote (r : str) : scanstring (34 :: r) = Some ([], r).
Proof. reflexivity. Qed.

Lemma scanstring_simple (e c : N) (r : str) :
  simple_escape e = Some c -> e <> 117 ->
  scanstring (92 :: e :: r) = push c (scanstring r).
Proof.
  intros He Hne. cbn [scanstring]. cbn [N.eqb Pos.eqb].
  destruct (N.eqb_spec e 117) as [->|_]; [contradiction|].
  now rewrite He.
Qed.

Lemma scanstring_hex (a b c d code : N) (r : str) :
  hex4 a b c d = Some code -> is_high_surrogate code = false ->
  scanstring (92 :: 117 :: a :: b :: c :: d :: r) = push code (scanstring r).
Proof.
  intros H1 H2. cbn [scanstring]. cbn [N.eqb Pos.eqb].
  now rewrite H1, H2.
Qed.

Lemma scanstring_plain (c : N) (r : str) :
  c <> 34 -> c <> 92 -> (c <=? 31) = false ->
  scanstring (c :: r) = push c (scanstring r).
Proof.
  intros H1 H2 H3. cbn [scanstring].
  destruct (N.eqb_spec c 34); [contradiction|].
  destruct (N.eqb_spec c 92); [contradiction|].
  now rewrite H3.
Qed.

Lemma scanstring_escape_char (c : N) (r : str) :
  scanstring (escape_char c ++ r) = push c (scanstring r).
Proof.
  unfold escape_char.
  destruct (N.eqb_spec c 34) as [->|H34]; [reflexivity|].
  destruct (N.eqb_spec c 92) as [->|H92]; [reflexivity|].
  destruct (N.eqb_spec c 10) as [->|H10]; [reflexivity|].
  destruct (N.eqb_spec c 13) as [->|H13]; [reflexivity|].
  destruct (N.eqb_spec c 9) as [->|H9]; [reflexivity|].
  destruct (N.eqb_spec c 8) as [->|H8]; [reflexivity|].
  destruct (N.eqb_spec c 12) as [->|H12]; [reflexivity|].
  destruct (c <=? 31) eqn:Hc.
  - destruct (hex4_control c Hc) as [Hhex Hhigh].
    apply (scanstring_hex _ _ _ _ r Hhex Hhigh).
  - now apply scanstring_plain.
Qed.

Lemma scanstring_escaped (s rest : str) :
  scanstring (flat_map escape_char s ++ 34 :: rest) = Some (s, rest).
Proof.
  induction s as [|c s IH]; simpl flat_map.
  - reflexivity.
  - rewrite <- app_assoc, scanstring_escape_char, IH. reflexivity.
Qed.

(** *** Integers *)

Lemma chars_of_uint_digits (d : Decimal.uint) :
  forallb isdigit (chars_of_uint d) = true.
Proof. induction d; simpl; auto. Qed.

Lemma of_uint_acc_fold (d : Decimal.uint) :
  forall acc,
    Z.pos (Pos.of_uint_acc d acc)
    = fold_left (fun a c => (10 * a + Z.of_N (c - 48))%Z)
                (chars_of_uint d) (Z.pos acc).
Proof.
  induction d; intros acc; cbn [Pos.of_uint_acc chars_of_uint fold_left];
    try reflexivity; rewrite IHd; f_equal; lia.
Qed.

Lemma of_uint_fold (d : Decimal.uint) :
  Z.of_N (Pos.of_uint d) = int_of_digits (chars_of_uint d).
Proof.
  unfold int_of_digits.
  induction d; cbn [Pos.of_uint chars_of_uint fold_left Z.of_N];
    try reflexivity; try assumption;
    rewrite of_uint_acc_fold; reflexivity.
Qed.

Lemma int_of_digits_str_of_N (n : N) :
  int_of_digits (str_of_N n) = Z.of_N n.
Proof.
  unfold str_of_N. rewrite <- of_uint_fold.
  f_equal. apply DecimalN.Unsigned.of_to.
Qed.

Lemma span_digits_app (ds rest : str) :
  forallb isdigit ds = true ->
  match rest with [] => true | c :: _ => negb (isdigit c) end = true ->
  span_digits (ds ++ rest) = (ds, rest).
Proof.
  intros Hds Hrest. induction ds as [|c ds IH]; cbn [span_digits app].
  - destruct rest as [|c r]; [reflexivity|].
    apply negb_true_iff in Hrest. cbn [span_digits]. now rewrite Hrest.
  - cbn [forallb] in Hds. apply andb_true_iff in Hds as [Hc Hds].
    now rewrite Hc, IH.
Qed.

(** The decimal text of a positive number starts with a digit from 1
    to 9. *)
Lemma pos_to_uint_head (p : positive) :
  exists c r, chars_of_uint (Pos.to_uint p) = c :: r
              /\ isdigit c = true /\ c <> 48.
Proof.
  pose proof (DecimalPos.Unsigned.to_of (Pos.to_uint p)) as Hnorm.
  rewrite DecimalPos.Unsigned.of_to in Hnorm. simpl in Hnorm.
  pose proof (DecimalPos.Unsigned.to_uint_nonzero p) as Hnz.
  pose proof (DecimalPos.Unsigned.to_uint_nonnil p) as Hnn.
  destruct (Pos.to_uint p) as [|d|d|d|d|d|d|d|d|d|d] eqn:E;
    try (eexists; eexists; split; [reflexivity|];
         split; [reflexivity | discriminate]).
  - contradiction.
  - exfalso. rewrite DecimalFacts.unorm_D0 in Hnorm.
    unfold Decimal.unorm in Hnorm.
    destruct (Decimal.nzhead d) eqn:Hd;
      try (rewrite <- Hd in Hnorm; symmetry in Hnorm;
           now apply DecimalFacts.nzhead_nonzero in Hnorm).
    apply Hnz. exact Hnorm.
Qed.

Lemma digit_cases (c : N) :
  isdigit c = true ->
  c = 48 \/ c = 49 \/ c = 50 \/ c = 51 \/ c = 52
  \/ c = 53 \/ c = 54 \/ c = 55 \/ c = 56 \/ c = 57.
Proof.
  unfold isdigit. intros H. apply andb_true_iff in H as [H1 H2].
  apply N.leb_le in H1. apply N.leb_le in H2. lia.
Qed.

Lemma terminated_cases (rest : str) :
  terminated rest = true ->
  rest = [] \/ exists c r, rest = c :: r /\ (c = 44 \/ c = 93 \/ c = 125).
Proof.
  destruct rest as [|c r]; [now left|]. simpl. intros H. right.
  exists c, r. split; [reflexivity|].
  apply orb_true_iff in H as [H|H]; [apply orb_true_iff in H as [H|H]|];
    apply N.eqb_eq in H; auto.
Qed.

Lemma terminated_not_digit (rest : str) :
  terminated rest = true ->
  match rest with [] => true | c :: _ => negb (isdigit c) end = true.
Proof.
  intros H. destruct (terminated_cases _ H) as [->|[c [r [-> Hc]]]];
    [reflexivity|].
  destruct Hc as [->|[->| ->]]; reflexivity.
Qed.

Lemma frac_part_terminated (rest : str) :
  terminated rest = true -> frac_part rest = ([], rest).
Proof.
  intros H. destruct (terminated_cases _ H) as [->|[c [r [-> Hc]]]];
    [reflexivity|].
  destruct r; destruct Hc as [->|[->| ->]]; reflexivity.
Qed.

Lemma exp_part_terminated (rest : str) :
  terminated rest = true -> exp_part rest = ([], rest).
Proof.
  intros H. destruct (terminated_cases _ H) as [->|[c [r [-> Hc]]]];
    [reflexivity|].
  destruct Hc as [->|[->| ->]]; reflexivity.
Qed.

(** The digits of a number, followed by a terminator, are read back as
    that number. *)
Lemma int_part_str_of_N (n : N) (rest : str) :
  terminated rest = true ->
  int_part (str_of_N n ++ rest) = Some (str_of_N n, rest).
Proof.
  intros Hrest. destruct n as [|p]; [reflexivity|].
  unfold str_of_N. cbn [N.to_uint].
  pose proof (chars_of_uint_digits (Pos.to_uint p)) as Hds.
  destruct (pos_to_uint_head p) as [c [r [E [Hc Hne]]]].
  rewrite E in *. cbn [app int_part].
  destruct (N.eqb_spec c 48) as [|_]; [contradiction|].
  rewrite Hc. f_equal.
  apply (span_digits_app (c :: r) rest Hds).
  now apply terminated_not_digit.
Qed.

Lemma str_of_N_head (n : N) :
  exists c r, str_of_N n = c :: r /\ isdigit c = true.
Proof.
  destruct n as [|p].
  - exists 48, []. split; reflexivity.
  - destruct (pos_to_uint_head p) as [c [r [E [Hc _]]]].
    exists c, r. split; assumption.
Qed.

Lemma match_number_no_sign (c : N) (r : str) :
  (c =? 45) = false ->
  match_number (c :: r)
  = match int_part (c :: r) with
    | None => None
    | Some (ds, r1) =>
        let (fs, r2) := frac_part r1 in
        let (es, r3) := exp_part r2 in
        match fs, es with
        | [], [] => Some (JInt (int_of_digits ds), r3)
        | _, _ => Some (JFloat ([] ++ ds ++ fs ++ es), r3)
        end
    end.
Proof. intros H. unfold match_number. now rewrite H. Qed.

Lemma match_number_unsigned (n : N) (rest : str) :
  terminated rest = true ->
  match_number (str_of_N n ++ rest) = Some (JInt (Z.of_N n), rest).
Proof.
  intros Hrest.
  destruct (str_of_N_head n) as [c [r [E Hc]]].
  assert (Hsign : (c =? 45) = false).
  { destruct (digit_cases c Hc) as [->|[->|[->|[->|[->|[->|[->|[->|[->| ->]]]]]]]]];
      reflexivity. }
  assert (Hs : str_of_N n ++ rest = c :: (r ++ rest)) by now rewrite E.
  rewrite Hs, match_number_no_sign by exact Hsign. rewrite <- Hs.
  rewrite (int_part_str_of_N n rest Hrest).
  rewrite (frac_part_terminated rest Hrest).
  rewrite (exp_part_terminated rest Hrest).
  now rewrite int_of_digits_str_of_N.
Qed.

Lemma match_number_int (z : Z) (rest : str) :
  terminated rest = true ->
  match_number (str_of_Z z ++ rest) = Some (JInt z, rest).
Proof.
  intros Hrest. destruct z as [|p|p].
  - apply (match_number_unsigned 0 rest Hrest).
  - apply (match_number_unsigned (Npos p) rest Hrest).
  - unfold str_of_Z, match_number. cbn [app]. cbn [N.eqb Pos.eqb].
    rewrite (int_part_str_of_N (Npos p) rest Hrest).
    rewrite (frac_part_terminated rest Hrest).
    rewrite (exp_part_terminated rest Hrest).
    now rewrite int_of_digits_str_of_N.
Qed.

Lemma scan_once_digit (f : nat) (c : N) (r : str) :
  isdigit c = true -> scan_once (S f) (c :: r) = match_number (c :: r).
Proof.
  intros Hc.
  destruct (digit_cases c Hc) as [->|[->|[->|[->|[->|[->|[->|[->|[->| ->]]]]]]]]];
    reflexivity.
Qed.

Lemma scan_once_minus_digit (f : nat) (c : N) (r : str) :
  isdigit c = true ->
  scan_once (S f) (45 :: c :: r) = match_number (45 :: c :: r).
Proof.
  intros Hc.
  destruct (digit_cases c Hc) as [->|[->|[->|[->|[->|[->|[->|[->|[->| ->]]]]]]]]];
    reflexivity.
Qed.

Lemma scan_once_int (f : nat) (z : Z) (rest : str) :
  terminated rest = true ->
  scan_once (S f) (str_of_Z z ++ rest) = Some (JInt z, rest).
Proof.
  intros Hrest. rewrite <- (match_number_int z rest Hrest).
  destruct z as [|p|p]; unfold str_of_Z.
  - reflexivity.
  - destruct (str_of_N_head (Z.to_N (Z.pos p))) as [c [r [E Hc]]].
    rewrite E. now apply scan_once_digit.
  - destruct (str_of_N_head (N.pos p)) as [c [r [E Hc]]].
    rewrite E. now apply scan_once_minus_digit.
Qed.

(** *** Values *)

(** Induction on a JSON value, with the hypothesis on every item of an
    array and on every member of an object. *)
Lemma json_nested_ind (P : json -> Prop) :
  P JNull ->
  (forall b, P (JBool b)) ->
  (forall z, P (JInt z)) ->
  (forall l, P (JFloat l)) ->
  (forall s, P (JString s)) ->
  (forall items, Forall P items -> P (JArray items)) ->
  (forall members, Forall (fun kv => P (snd kv)) members ->
                   P (JObject members)) ->
  forall v, P v.
Proof.
  intros Hnull Hbool Hint Hfloat Hstr Harr Hobj.
  fix IH 1. intros [| b | z | l | s | items | members].
  - exact Hnull.
  - apply Hbool.
  - apply Hint.
  - apply Hfloat.
  - apply Hstr.
  - apply Harr. induction items as [|x r IHr]; constructor.
    + apply IH.
    + exact IHr.
  - apply Hobj. induction members as [|[k x] r IHr]; constructor.
    + apply IH.
    + exact IHr.
Qed.

Section ReadBack.

Variable py : PyRepr.

(** The text of a value without floats starts with a character that is
    neither whitespace nor a closing bracket or brace. *)
Lemma dumps_head (v : json) :
  float_free v = true ->
  exists c r, dumps py v = c :: r /\ opens_value c.
Proof.
  unfold opens_value.
  destruct v as [| [|] | z | l | s | items | members]; intros Hff;
    try discriminate;
    try (eexists; eexists; split; [reflexivity|];
         split; [reflexivity | split; discriminate]).
  destruct z as [|p|p].
  - eexists; eexists; split; [reflexivity|];
      split; [reflexivity | split; discriminate].
  - cbn [dumps str_of_Z].
    destruct (str_of_N_head (Z.to_N (Z.pos p))) as [c [r [E Hc]]].
    exists c, r. split; [exact E|].
    destruct (digit_cases c Hc) as [->|[->|[->|[->|[->|[->|[->|[->|[->| ->]]]]]]]]];
      (split; [reflexivity | split; discriminate]).
  - eexists; eexists; split; [reflexivity|];
      split; [reflexivity | split; discriminate].
Qed.

Lemma skip_ws_head (c : N) (r : str) :
  is_json_ws c = false -> skip_ws (c :: r) = c :: r.
Proof. intros H. cbn [skip_ws]. now rewrite H. Qed.

Lemma skip_ws_dumps (v : json) (rest : str) :
  float_free v = true -> skip_ws (dumps py v ++ rest) = dumps py v ++ rest.
Proof.
  intros Hff. destruct (dumps_head v Hff) as [c [r [E [Hws _]]]].
  rewrite E. now apply skip_ws_head.
Qed.

Lemma join_cons (sep x y : str) (r : list str) :
  join sep (x :: y :: r) = x ++ sep ++ join sep (y :: r).
Proof. reflexivity. Qed.

Lemma join_head (sep x : str) (r : list str) :
  exists t, join sep (x :: r) = x ++ t.
Proof.
  destruct r as [|y r].
  - exists []. simpl. now rewrite app_nil_r.
  - eexists. apply join_cons.
Qed.

Lemma skip_ws_space (s : str) : skip_ws (32 :: s) = skip_ws s.
Proof. reflexivity. Qed.

Lemma skip_ws_join (v : json) (texts : list str) (rest : str) :
  float_free v = true ->
  skip_ws (join (u ", ") (dumps py v :: texts) ++ rest)
  = join (u ", ") (dumps py v :: texts) ++ rest.
Proof.
  intros Hff. destruct (join_head (u ", ") (dumps py v) texts) as [t ->].
  rewrite <- app_assoc. now apply skip_ws_dumps.
Qed.

Lemma parse_items_dumps (pv : str -> option (json * str)) (rest : str) :
  forall items acc n x,
    Forall (reads_back py pv) (x :: items) ->
    (length (x :: items) <= n)%nat ->
    parse_items pv n
      (join (u ", ") (map (dumps py) (x :: items)) ++ 93 :: rest) acc
    = Some (JArray (rev acc ++ x :: items), rest).
Proof.
  induction items as [|y r IH]; intros acc n x Hall Hn.
  - destruct n as [|n]; [simpl in Hn; lia|].
    inversion Hall as [|? ? [_ Hx] _]; subst.
    cbn [map join parse_items]. rewrite Hx by reflexivity.
    cbn [skip_ws is_json_ws N.eqb Pos.eqb orb]. reflexivity.
  - destruct n as [|n]; [simpl in Hn; lia|].
    inversion Hall as [|? ? [_ Hx] Hrest]; subst.
    assert (Hy : float_free y = true).
    { inversion Hrest as [|? ? [Hy _] _]. exact Hy. }
    specialize (IH (x :: acc) n y Hrest).
    cbn [map] in IH |- *. rewrite join_cons, <- !app_assoc.
    cbn [parse_items]. rewrite Hx by reflexivity.
    change (u ", ") with [44; 32] at 1. cbn [app].
    rewrite skip_ws_head by reflexivity.
    change (44 =? 93) with false. change (44 =? 44) with true. cbv iota.
    rewrite skip_ws_space, skip_ws_join by exact Hy.
    rewrite IH by (simpl in Hn |- *; lia).
    cbn [rev]. now rewrite <- app_assoc.
Qed.

Lemma parse_members_step (pv : str -> option (json * str)) (n : nat)
    (k : str) (v : json) (tail : str) (acc : list (str * json)) :
  float_free v = true ->
  pv (dumps py v ++ tail) = Some (v, tail) ->
  parse_members pv (S n) (member_text py (k, v) ++ tail) acc
  = match skip_ws tail with
    | [] => None
    | c :: r4 =>
        if c =? 125 then Some (JObject (dict_set k v acc), r4)
        else if c =? 44
        then parse_members pv n (skip_ws r4) (dict_set k v acc)
        else None
    end.
Proof.
  intros Hff Hpv. unfold member_text, encode_basestring. cbn [fst snd].
  cbn [app parse_members]. change (34 =? 34) with true. cbv iota.
  rewrite <- !app_assoc. cbn [app]. rewrite scanstring_escaped.
  change (u ": ") with [58; 32]. cbn [app].
  rewrite skip_ws_head by reflexivity.
  change (58 =? 58) with true. cbv iota.
  rewrite skip_ws_space, skip_ws_dumps by exact Hff.
  now rewrite Hpv.
Qed.

Lemma str_eqb_sym (a b : str) : str_eqb a b = str_eqb b a.
Proof.
  destruct (str_eqb a b) eqn:E; symmetry.
  - apply str_eqb_eq in E. subst. apply str_eqb_refl.
  - destruct (str_eqb b a) eqn:E'; [|reflexivity].
    apply str_eqb_eq in E'. subst. now rewrite str_eqb_refl in E.
Qed.

Lemma dict_set_fresh (k : str) (v : json) (d : list (str * json)) :
  mem k (map fst d) = false -> dict_set k v d = d ++ [(k, v)].
Proof.
  induction d as [|[k' w] d IH]; cbn [dict_set map mem existsb app fst];
    [reflexivity|].
  intros H. apply orb_false_iff in H as [Hk Hd].
  rewrite str_eqb_sym, Hk. f_equal. now apply IH.
Qed.

Lemma mem_app (k : str) (a b : list str) :
  mem k (a ++ b) = mem k a || mem k b.
Proof. unfold mem. apply existsb_app. Qed.

Lemma distinct_middle (a b : list str) (k : str) :
  distinct (a ++ k :: b) = true -> mem k a = false.
Proof.
  induction a as [|x a IH]; cbn [app distinct]; [reflexivity|].
  intros H. apply andb_true_iff in H as [Hx Ha].
  apply negb_true_iff in Hx. rewrite mem_app in Hx.
  apply orb_false_iff in Hx as [_ Hx].
  cbn [mem existsb] in Hx |- *. apply orb_false_iff in Hx as [Hx _].
  rewrite str_eqb_sym, Hx. now apply IH.
Qed.

Lemma parse_members_dumps (pv : str -> option (json * str)) (rest : str) :
  forall members acc n kv,
    Forall (fun m => reads_back py pv (snd m)) (kv :: members) ->
    distinct (map fst (acc ++ kv :: members)) = true ->
    (length (kv :: members) <= n)%nat ->
    parse_members pv n
      (join (u ", ") (map (member_text py) (kv :: members)) ++ 125 :: rest) acc
    = Some (JObject (acc ++ kv :: members), rest).
Proof.
  induction members as [|kv' r IH]; intros acc n [k v] Hall Hd Hn;
    (destruct n as [|n]; [simpl in Hn; lia|]);
    inversion Hall as [|? ? [Hff Hv] Hrest]; subst; cbn [snd] in Hff, Hv;
    assert (Hfresh : dict_set k v acc = acc ++ [(k, v)])
      by (apply dict_set_fresh; rewrite map_app in Hd;
          now apply distinct_middle in Hd).
  - cbn [map join]. rewrite parse_members_step by (auto; now apply Hv).
    rewrite skip_ws_head by reflexivity.
    change (125 =? 125) with true. cbv iota. now rewrite Hfresh.
  - cbn [map]. rewrite join_cons, <- !app_assoc.
    rewrite parse_members_step by (auto; now apply Hv).
    change (u ", ") with [44; 32] at 1. cbn [app].
    rewrite skip_ws_head by reflexivity.
    change (44 =? 125) with false. change (44 =? 44) with true. cbv iota.
    rewrite skip_ws_space.
    destruct (join_head (u ", ") (member_text py kv') (map (member_text py) r))
      as [t Ht].
    assert (Hskip : forall s,
               skip_ws (join (u ", ") (member_text py kv' :: map (member_text py) r)
                        ++ s)
               = join (u ", ") (member_text py kv' :: map (member_text py) r) ++ s).
    { intros s. rewrite Ht. unfold member_text, encode_basestring.
      cbn [app]. now apply skip_ws_head. }
    rewrite Hskip, Hfresh.
    specialize (IH (acc ++ [(k, v)]) n kv' Hrest).
    cbn [map] in IH. rewrite IH.
    + now rewrite <- app_assoc.
    + now rewrite <- app_assoc.
    + simpl in Hn |- *. lia.
Qed.

Lemma fold_max_le (A : Type) (g : A -> nat) (l : list A) (x : A) :
  In x l -> (g x <= fold_right (fun y m => Nat.max (g y) m) O l)%nat.
Proof.
  induction l as [|y l IH]; intros Hin; [destruct Hin|].
  cbn [fold_right]. destruct Hin as [->|Hin]; [lia|].
  specialize (IH Hin). lia.
Qed.

(** Every value without floats whose dictionaries have distinct keys is
    read back from its text, given enough fuel. *)
Lemma scan_once_dumps (v : json) :
  well_formed v = true -> float_free v = true ->
  forall f rest,
    (need v <= f)%nat -> terminated rest = true ->
    scan_once f (dumps py v ++ rest) = Some (v, rest).
Proof.
  induction v as [| b | z | l | s | items IH | members IH]
    using json_nested_ind;
    intros Hwf Hff f rest Hf Hrest;
    (destruct f as [|f]; [cbn [need] in Hf; lia|]).
  - reflexivity.
  - destruct b; reflexivity.
  - now apply scan_once_int.
  - discriminate.
  - cbn [dumps]. unfold encode_basestring.
    rewrite <- app_comm_cons, <- app_assoc. cbn [app scan_once].
    change (34 =? 34) with true. cbv iota.
    now rewrite scanstring_escaped.
  - cbn [dumps]. change (u "[") with [91]. change (u "]") with [93].
    rewrite <- !app_assoc. cbn [app scan_once].
    change (91 =? 34) with false. change (91 =? 123) with false.
    change (91 =? 91) with true. cbv iota.
    destruct items as [|x items].
    + reflexivity.
    + cbn [well_formed float_free] in Hwf, Hff.
      assert (Hall : Forall (reads_back py (scan_once f)) (x :: items)).
      { rewrite Forall_forall in IH |- *. intros y Hy.
        rewrite forallb_forall in Hwf, Hff. split; [now apply Hff|].
        intros rest' Hrest'. apply IH; auto.
        cbn [need] in Hf.
        pose proof (fold_max_le need (x :: items) y Hy). lia. }
      assert (Hx : float_free x = true).
      { rewrite forallb_forall in Hff. apply Hff. now left. }
      cbn [map]. rewrite skip_ws_join by exact Hx.
      destruct (join_head (u ", ") (dumps py x) (map (dumps py) items))
        as [t Ht].
      destruct (dumps_head x Hx) as [c [r [E [_ [Hc _]]]]].
      pose proof (@parse_items_dumps (scan_once f) rest items [] f x Hall)
        as Hloop.
      cbn [map] in Hloop. revert Hloop. rewrite Ht, E. cbn [app].
      destruct (N.eqb_spec c 93) as [|_]; [contradiction|].
      intros Hloop. apply Hloop. cbn [need] in Hf. lia.
  - cbn [dumps]. change (u "{") with [123]. change (u "}") with [125].
    rewrite <- !app_assoc. cbn [app scan_once].
    change (123 =? 34) with false. change (123 =? 123) with true. cbv iota.
    destruct members as [|[k x] members].
    + reflexivity.
    + cbn [well_formed float_free] in Hwf, Hff.
      apply andb_true_iff in Hwf as [Hkeys Hwf].
      assert (Hall : Forall (fun m => reads_back py (scan_once f) (snd m))
                            ((k, x) :: members)).
      { rewrite Forall_forall in IH |- *. intros y Hy.
        rewrite forallb_forall in Hwf, Hff. split; [now apply Hff|].
        intros rest' Hrest'. apply IH; auto.
        cbn [need] in Hf.
        pose proof (fold_max_le (fun kv => need (snd kv))
                                ((k, x) :: members) y Hy). lia. }
      pose proof (@parse_members_dumps (scan_once f) rest members [] f
                                       (k, x) Hall Hkeys) as Hloop.
      change (map (fun kv => encode_basestring (fst kv) ++ u ": "
                             ++ dumps py (snd kv)) ((k, x) :: members))
        with (map (member_text py) ((k, x) :: members)).
      cbn [map] in Hloop |- *.
      destruct (join_head (u ", ") (member_text py (k, x))
                          (map (member_text py) members)) as [t Ht].
      revert Hloop. rewrite Ht. unfold member_text, encode_basestring.
      cbn [app fst].
      rewrite skip_ws_head by reflexivity.
      change (34 =? 125) with false. cbv iota.
      intros Hloop. apply Hloop. cbn [need] in Hf. lia.
Qed.

Lemma length_join_ge (sep : str) (texts : list str) :
  (fold_right (fun t m => length t + m) O texts
   <= length (join sep texts))%nat.
Proof.
  induction texts as [|x [|y r] IH]; cbn [fold_right]; [simpl; lia | simpl; lia |].
  rewrite join_cons, !length_app. cbn [fold_right] in IH. lia.
Qed.

Lemma need_le_length (v : json) :
  float_free v = true -> (need v <= length (dumps py v))%nat.
Proof.
  induction v as [| b | z | l | s | items IH | members IH]
    using json_nested_ind; intros Hff.
  - simpl. lia.
  - destruct b; simpl; lia.
  - destruct (dumps_head (JInt z) Hff) as [c [r [-> _]]]. simpl. lia.
  - discriminate.
  - simpl. lia.
  - cbn [dumps need float_free] in *. rewrite !length_app.
    pose proof (length_join_ge (u ", ") (map (dumps py) items)) as Hj.
    assert (Hsum : (Nat.max (length items)
                      (fold_right (fun x m => Nat.max (need x) m) O items)
                    <= fold_right (fun t m => length t + m) O
                                  (map (dumps py) items))%nat).
    { clear Hj. induction items as [|x r IHr]; [simpl; lia|].
      cbn [forallb] in Hff. apply andb_true_iff in Hff as [Hx Hr].
      inversion IH as [|? ? Hx' IHr']; subst.
      specialize (IHr IHr' Hr). specialize (Hx' Hx).
      destruct (dumps_head x Hx) as [c [t [E _]]].
      cbn [map fold_right length]. rewrite E in *.
      cbn [length] in *. lia. }
    simpl. lia.
  - cbn [dumps need float_free] in *. rewrite !length_app.
    pose proof (length_join_ge (u ", ")
                  (map (fun kv => encode_basestring (fst kv) ++ u ": "
                                  ++ dumps py (snd kv)) members)) as Hj.
    assert (Hsum : (Nat.max (length members)
                      (fold_right (fun kv m => Nat.max (need (snd kv)) m)
                                  O members)
                    <= fold_right (fun t m => length t + m) O
                         (map (fun kv => encode_basestring (fst kv)
                                         ++ u ": " ++ dumps py (snd kv))
                              members))%nat).
    { clear Hj. induction members as [|[k x] r IHr]; [simpl; lia|].
      cbn [forallb snd] in Hff. apply andb_true_iff in Hff as [Hx Hr].
      inversion IH as [|? ? Hx' IHr']; subst. cbn [snd] in Hx'.
      specialize (IHr IHr' Hr). specialize (Hx' Hx).
      cbn [map fold_right length snd fst]. rewrite !length_app.
      change (length (u ": ")) with 2%nat. lia. }
    change (length (u "{")) with 1%nat.
    change (length (u "}")) with 1%nat. lia.
Qed.

(** [json.loads(json.dumps(v))] gives [v] back. *)
Lemma loads_dumps (v : json) :
  well_formed v = true -> float_free v = true ->
  json_loads (dumps py v) = Some v.
Proof.
  intros Hwf Hff. unfold json_loads.
  rewrite <- (app_nil_r (dumps py v)) at 2.
  rewrite skip_ws_dumps by exact Hff.
  rewrite scan_once_dumps; auto.
  pose proof (need_le_length v Hff). lia.
Qed.

End ReadBack.

(** *** Values with floats

    The same reading, floats included: what is read back is the value in
    which every float has its canonical literal.  All that is asked of
    [float.__repr__] is [floats_read_back]. *)

Lemma float_literal_head (l : str) :
  float_literal l -> exists c r, l = c :: r /\ opens_value c.
Proof.
  intros H. specialize (H O [] eq_refl). rewrite app_nil_r in H.
  destruct l as [|c r]; [discriminate|].
  exists c, r. split; [reflexivity|]. unfold opens_value, is_json_ws.
  repeat split.
  - destruct (N.eqb_spec c 32) as [->|_]; [vm_compute in H; discriminate|].
    destruct (N.eqb_spec c 9) as [->|_]; [vm_compute in H; discriminate|].
    destruct (N.eqb_spec c 10) as [->|_]; [vm_compute in H; discriminate|].
    destruct (N.eqb_spec c 13) as [->|_]; [vm_compute in H; discriminate|].
    reflexivity.
  - intros ->. vm_compute in H. discriminate.
  - intros ->. vm_compute in H. discriminate.
Qed.

Lemma canonical_float_free (py : PyRepr) (v : json) :
  float_free v = true -> canonical py v = v.
Proof.
  induction v as [| b | z | l | s | items IH | members IH]
    using json_nested_ind; intros Hff; try reflexivity; try discriminate.
  - cbn [canonical float_free] in *. f_equal.
    induction items as [|x r IHr]; [reflexivity|].
    cbn [forallb] in Hff. apply andb_true_iff in Hff as [Hx Hr].
    inversion IH as [|? ? Hx' IHr']; subst.
    cbn [map]. now rewrite Hx', IHr.
  - cbn [canonical float_free] in *. f_equal.
    induction members as [|[k x] r IHr]; [reflexivity|].
    cbn [forallb snd] in Hff. apply andb_true_iff in Hff as [Hx Hr].
    inversion IH as [|? ? Hx' IHr']; subst. cbn [snd] in Hx'.
    cbn [map fst snd]. now rewrite Hx', IHr.
Qed.

Section ReadBackCanonical.

Variable py : PyRepr.
Hypothesis floats_ok : floats_read_back py.

Lemma dumps_opens_value (v : json) :
  exists c r, dumps py v = c :: r /\ opens_value c.
Proof.
  destruct v as [| b | z | l | s | items | members].
  - now apply dumps_head.
  - now apply dumps_head.
  - now apply dumps_head.
  - apply float_literal_head, floats_ok.
  - now apply dumps_head.
  - eexists; eexists; split; [reflexivity|].
    split; [reflexivity | split; discriminate].
  - eexists; eexists; split; [reflexivity|].
    split; [reflexivity | split; discriminate].
Qed.

Lemma skip_ws_dumps_any (v : json) (rest : str) :
  skip_ws (dumps py v ++ rest) = dumps py v ++ rest.
Proof.
  destruct (dumps_opens_value v) as [c [r [E [Hws _]]]].
  rewrite E. now apply skip_ws_head.
Qed.

Lemma skip_ws_join_any (v : json) (texts : list str) (rest : str) :
  skip_ws (join (u ", ") (dumps py v :: texts) ++ rest)
  = join (u ", ") (dumps py v :: texts) ++ rest.
Proof.
  destruct (join_head (u ", ") (dumps py v) texts) as [t ->].
  rewrite <- app_assoc. apply skip_ws_dumps_any.
Qed.

Lemma parse_items_canonical (pv : str -> option (json * str)) (rest : str) :
  forall items acc n x,
    Forall (reads_canonical py pv) (x :: items) ->
    (length (x :: items) <= n)%nat ->
    parse_items pv n
      (join (u ", ") (map (dumps py) (x :: items)) ++ 93 :: rest) acc
    = Some (JArray (rev acc ++ map (canonical py) (x :: items)), rest).
Proof.
  induction items as [|y r IH]; intros acc n x Hall Hn.
  - destruct n as [|n]; [simpl in Hn; lia|].
    inversion Hall as [|? ? Hx _]; subst.
    cbn [map join parse_items]. rewrite Hx by reflexivity.
    cbn [skip_ws is_json_ws N.eqb Pos.eqb orb]. reflexivity.
  - destruct n as [|n]; [simpl in Hn; lia|].
    inversion Hall as [|? ? Hx Hrest]; subst.
    specialize (IH (canonical py x :: acc) n y Hrest).
    cbn [map] in IH |- *. rewrite join_cons, <- !app_assoc.
    cbn [parse_items]. rewrite Hx by reflexivity.
    change (u ", ") with [44; 32] at 1. cbn [app].
    rewrite skip_ws_head by reflexivity.
    change (44 =? 93) with false. change (44 =? 44) with true. cbv iota.
    rewrite skip_ws_space, skip_ws_join_any.
    rewrite IH by (simpl in Hn |- *; lia).
    cbn [rev]. now rewrite <- app_assoc.
Qed.

Lemma parse_members_step_canonical (pv : str -> option (json * str))
    (n : nat) (k : str) (v : json) (tail : str) (acc : list (str * json)) :
  pv (dumps py v ++ tail) = Some (canonical py v, tail) ->
  parse_members pv (S n) (member_text py (k, v) ++ tail) acc
  = match skip_ws tail with
    | [] => None
    | c :: r4 =>
        if c =? 125 then Some (JObject (dict_set k (canonical py v) acc), r4)
        else if c =? 44
        then parse_members pv n (skip_ws r4) (dict_set k (canonical py v) acc)
        else None
    end.
Proof.
  intros Hpv. unfold member_text, encode_basestring. cbn [fst snd].
  cbn [app parse_members]. change (34 =? 34) with true. cbv iota.
  rewrite <- !app_assoc. cbn [app]. rewrite scanstring_escaped.
  change (u ": ") with [58; 32]. cbn [app].
  rewrite skip_ws_head by reflexivity.
  change (58 =? 58) with true. cbv iota.
  rewrite skip_ws_space, skip_ws_dumps_any.
  now rewrite Hpv.
Qed.

Lemma parse_members_canonical (pv : str -> option (json * str)) (rest : str) :
  forall members acc n kv,
    Forall (fun m => reads_canonical py pv (snd m)) (kv :: members) ->
    distinct (map fst (acc ++ kv :: members)) = true ->
    (length (kv :: members) <= n)%nat ->
    parse_members pv n
      (join (u ", ") (map (member_text py) (kv :: members)) ++ 125 :: rest) acc
    = Some (JObject
              (acc ++ map (fun m => (fst m, canonical py (snd m)))
                          (kv :: members)),
            rest).
Proof.
  induction members as [|kv' r IH]; intros acc n [k v] Hall Hd Hn;
    (destruct n as [|n]; [simpl in Hn; lia|]);
    inversion Hall as [|? ? Hv Hrest]; subst; cbn [snd] in Hv;
    assert (Hfresh : dict_set k (canonical py v) acc
                     = acc ++ [(k, canonical py v)])
      by (apply dict_set_fresh; rewrite map_app in Hd;
          now apply distinct_middle in Hd).
  - cbn [map join]. rewrite parse_members_step_canonical by now apply Hv.
    rewrite skip_ws_head by reflexivity.
    change (125 =? 125) with true. cbv iota. now rewrite Hfresh.
  - cbn [map]. rewrite join_cons, <- !app_assoc.
    rewrite parse_members_step_canonical by now apply Hv.
    change (u ", ") with [44; 32] at 1. cbn [app].
    rewrite skip_ws_head by reflexivity.
    change (44 =? 125) with false. change (44 =? 44) with true. cbv iota.
    rewrite skip_ws_space.
    destruct (join_head (u ", ") (member_text py kv') (map (member_text py) r))
      as [t Ht].
    assert (Hskip : forall s,
               skip_ws (join (u ", ") (member_text py kv' :: map (member_text py) r)
                        ++ s)
               = join (u ", ") (member_text py kv' :: map (member_text py) r) ++ s).
    { intros s. rewrite Ht. unfold member_text, encode_basestring.
      cbn [app]. now apply skip_ws_head. }
    rewrite Hskip, Hfresh.
    specialize (IH (acc ++ [(k, canonical py v)]) n kv' Hrest).
    cbn [map fst snd] in IH |- *. rewrite IH.
    + now rewrite <- app_assoc.
    + rewrite <- app_assoc. cbn [app].
      rewrite map_app in Hd |- *. exact Hd.
    + simpl in Hn |- *. lia.
Qed.

(** Every value whose dictionaries have distinct keys is read back from
    its text, given enough fuel. *)
Lemma scan_once_canonical (v : json) :
  well_formed v = true ->
  forall f rest,
    (need v <= f)%nat -> terminated rest = true ->
    scan_once f (dumps py v ++ rest) = Some (canonical py v, rest).
Proof.
  induction v as [| b | z | l | s | items IH | members IH]
    using json_nested_ind;
    intros Hwf f rest Hf Hrest;
    (destruct f as [|f]; [cbn [need] in Hf; lia|]).
  - reflexivity.
  - destruct b; reflexivity.
  - now apply scan_once_int.
  - cbn [dumps canonical]. now apply floats_ok.
  - cbn [dumps]. unfold encode_basestring.
    rewrite <- app_comm_cons, <- app_assoc. cbn [app scan_once].
    change (34 =? 34) with true. cbv iota.
    now rewrite scanstring_escaped.
  - cbn [dumps]. change (u "[") with [91]. change (u "]") with [93].
    rewrite <- !app_assoc. cbn [app scan_once].
    change (91 =? 34) with false. change (91 =? 123) with false.
    change (91 =? 91) with true. cbv iota.
    destruct items as [|x items].
    + reflexivity.
    + cbn [well_formed] in Hwf.
      assert (Hall : Forall (reads_canonical py (scan_once f)) (x :: items)).
      { rewrite Forall_forall in IH |- *. intros y Hy.
        rewrite forallb_forall in Hwf.
        intros rest' Hrest'. apply IH; auto.
        cbn [need] in Hf.
        pose proof (fold_max_le need (x :: items) y Hy). lia. }
      cbn [map]. rewrite skip_ws_join_any.
      destruct (join_head (u ", ") (dumps py x) (map (dumps py) items))
        as [t Ht].
      destruct (dumps_opens_value x) as [c [r [E [_ [Hc _]]]]].
      pose proof (@parse_items_canonical (scan_once f) rest items [] f x Hall)
        as Hloop.
      cbn [map] in Hloop. revert Hloop. rewrite Ht, E. cbn [app].
      destruct (N.eqb_spec c 93) as [|_]; [contradiction|].
      intros Hloop. apply Hloop. cbn [need] in Hf. lia.
  - cbn [dumps]. change (u "{") with [123]. change (u "}") with [125].
    rewrite <- !app_assoc. cbn [app scan_once].
    change (123 =? 34) with false. change (123 =? 123) with true. cbv iota.
    destruct members as [|[k x] members].
    + reflexivity.
    + cbn [well_formed] in Hwf.
      apply andb_true_iff in Hwf as [Hkeys Hwf].
      assert (Hall : Forall (fun m => reads_canonical py (scan_once f) (snd m))
                            ((k, x) :: members)).
      { rewrite Forall_forall in IH |- *. intros y Hy.
        rewrite forallb_forall in Hwf.
        intros rest' Hrest'. apply IH; auto.
        cbn [need] in Hf.
        pose proof (fold_max_le (fun kv => need (snd kv))
                                ((k, x) :: members) y Hy). lia. }
      pose proof (@parse_members_canonical (scan_once f) rest members [] f
                                           (k, x) Hall Hkeys) as Hloop.
      change (map (fun kv => encode_basestring (fst kv) ++ u ": "
                             ++ dumps py (snd kv)) ((k, x) :: members))
        with (map (member_text py) ((k, x) :: members)).
      cbn [map] in Hloop |- *.
      destruct (join_head (u ", ") (member_text py (k, x))
                          (map (member_text py) members)) as [t Ht].
      revert Hloop. rewrite Ht. unfold member_text, encode_basestring.
      cbn [app fst].
      rewrite skip_ws_head by reflexivity.
      change (34 =? 125) with false. cbv iota.
      intros Hloop. apply Hloop. cbn [need] in Hf. lia.
Qed.

Lemma need_le_length_any (v : json) : (need v <= length (dumps py v))%nat.
Proof.
  induction v as [| b | z | l | s | items IH | members IH]
    using json_nested_ind.
  - simpl. lia.
  - destruct b; simpl; lia.
  - destruct (dumps_opens_value (JInt z)) as [c [r [-> _]]]. simpl. lia.
  - destruct (dumps_opens_value (JFloat l)) as [c [r [-> _]]]. simpl. lia.
  - simpl. lia.
  - cbn [dumps need] in *. rewrite !length_app.
    pose proof (length_join_ge (u ", ") (map (dumps py) items)) as Hj.
    assert (Hsum : (Nat.max (length items)
                      (fold_right (fun x m => Nat.max (need x) m) O items)
                    <= fold_right (fun t m => length t + m) O
                                  (map (dumps py) items))%nat).
    { clear Hj. induction items as [|x r IHr]; [simpl; lia|].
      inversion IH as [|? ? Hx' IHr']; subst.
      specialize (IHr IHr').
      destruct (dumps_opens_value x) as [c [t [E _]]].
      cbn [map fold_right length]. rewrite E in *.
      cbn [length] in *. lia. }
    simpl. lia.
  - cbn [dumps need] in *. rewrite !length_app.
    pose proof (length_join_ge (u ", ")
                  (map (fun kv => encode_basestring (fst kv) ++ u ": "
                                  ++ dumps py (snd kv)) members)) as Hj.
    assert (Hsum : (Nat.max (length members)
                      (fold_right (fun kv m => Nat.max (need (snd kv)) m)
                                  O members)
                    <= fold_right (fun t m => length t + m) O
                         (map (fun kv => encode_basestring (fst kv)
                                         ++ u ": " ++ dumps py (snd kv))
                              members))%nat).
    { clear Hj. induction members as [|[k x] r IHr]; [simpl; lia|].
      inversion IH as [|? ? Hx' IHr']; subst. cbn [snd] in Hx'.
      specialize (IHr IHr').
      cbn [map fold_right length snd fst]. rewrite !length_app.
      change (length (u ": ")) with 2%nat. lia. }
    change (length (u "{")) with 1%nat.
    change (length (u "}")) with 1%nat. lia.
Qed.

(** [json.loads(json.dumps(v))] gives [v] back, floats in their canonical
    literal. *)
Lemma loads_dumps_canonical (v : json) :
  well_formed v = true ->
  json_loads (dumps py v) = Some (canonical py v).
Proof.
  intros Hwf. unfold json_loads.
  rewrite <- (app_nil_r (dumps py v)) at 2.
  rewrite skip_ws_dumps_any.
  rewrite scan_once_canonical; auto.
  pose proof (need_le_length_any v). lia.
Qed.

End ReadBackCanonical.

(** *** Decoded values are well formed *)

Lemma mem_dict_set (k key : str) (v : json) (d : list (str * json)) :
  mem k (map fst (dict_set key v d))
  = mem k (map fst d) || str_eqb k key.
Proof.
  induction d as [|[k' w] d IH]; cbn [dict_set map fst mem existsb].
  - now rewrite orb_false_r.
  - destruct (str_eqb k' key) eqn:E; cbn [map fst mem existsb].
    + apply str_eqb_eq in E. subst k'.
      destruct (str_eqb k key); [now rewrite !orb_true_r|].
      now rewrite orb_false_r.
    + fold (mem k (map fst (dict_set key v d))). rewrite IH.
      fold (mem k (map fst d)). now rewrite orb_assoc.
Qed.

Lemma dict_set_well_formed (key : str) (v : json) (d : list (str * json)) :
  well_formed v = true -> well_formed_dict d = true ->
  well_formed_dict (dict_set key v d) = true.
Proof.
  unfold well_formed_dict. intros Hv.
  induction d as [|[k' w] d IH]; intros H.
  - cbn. now rewrite Hv.
  - cbn [map fst distinct forallb snd] in H.
    apply andb_true_iff in H as [H1 H2].
    apply andb_true_iff in H1 as [Hk Hd].
    apply andb_true_iff in H2 as [Hw Hws].
    cbn [dict_set]. destruct (str_eqb k' key) eqn:E.
    + cbn [map fst distinct forallb snd]. now rewrite Hk, Hd, Hv, Hws.
    + specialize (IH (proj2 (andb_true_iff _ _) (conj Hd Hws))).
      apply andb_true_iff in IH as [IH1 IH2].
      cbn [map fst distinct forallb snd].
      rewrite mem_dict_set, E, orb_false_r, Hk, IH1, Hw, IH2. reflexivity.
Qed.

Section DecoderInvariant.

Variable pv : str -> option (json * str).
Hypothesis pv_well_formed :
  forall s v r, pv s = Some (v, r) -> well_formed v = true.

Lemma parse_members_well_formed (n : nat) :
  forall s acc v r,
    well_formed_dict acc = true ->
    parse_members pv n s acc = Some (v, r) -> well_formed v = true.
Proof.
  induction n as [|n IH]; intros s acc v r Hacc; cbn [parse_members];
    [discriminate|].
  destruct s as [|q s]; [discriminate|].
  destruct (q =? 34); [|discriminate].
  destruct (scanstring s) as [[key r1]|]; [|discriminate].
  destruct (skip_ws r1) as [|colon r2]; [discriminate|].
  destruct (colon =? 58); [|discriminate].
  destruct (pv (skip_ws r2)) as [[x r3]|] eqn:Hx; [|discriminate].
  apply pv_well_formed in Hx.
  pose proof (@dict_set_well_formed key x acc Hx Hacc) as Hacc'.
  destruct (skip_ws r3) as [|c r4]; [discriminate|].
  destruct (c =? 125).
  - intros [= <- _]. exact Hacc'.
  - destruct (c =? 44); [|discriminate]. now apply IH.
Qed.

Lemma parse_items_well_formed (n : nat) :
  forall s acc v r,
    forallb well_formed acc = true ->
    parse_items pv n s acc = Some (v, r) -> well_formed v = true.
Proof.
  induction n as [|n IH]; intros s acc v r Hacc; cbn [parse_items];
    [discriminate|].
  destruct (pv s) as [[x r1]|] eqn:Hx; [|discriminate].
  apply pv_well_formed in Hx.
  assert (Hacc' : forallb well_formed (x :: acc) = true)
    by (cbn [forallb]; now rewrite Hx, Hacc).
  destruct (skip_ws r1) as [|c r2]; [discriminate|].
  destruct (c =? 93).
  - intros [= <- _]. cbn [well_formed].
    rewrite forallb_forall in Hacc' |- *. intros y Hy.
    apply Hacc'. now apply in_rev.
  - destruct (c =? 44); [|discriminate]. now apply IH.
Qed.

End DecoderInvariant.

Lemma match_number_well_formed (s : str) (v : json) (r : str) :
  match_number s = Some (v, r) -> well_formed v = true.
Proof.
  unfold match_number.
  destruct (match s with
            | [] => ([], s)
            | c :: r0 => if c =? 45 then ([c], r0) else ([], s)
            end) as [sign s1].
  destruct (int_part s1) as [[ds r1]|]; [|discriminate].
  destruct (frac_part r1) as [fs r2]. destruct (exp_part r2) as [es r3].
  destruct fs; destruct es; intros [= <- _]; reflexivity.
Qed.

Lemma scan_once_well_formed (f : nat) :
  forall s v r, scan_once f s = Some (v, r) -> well_formed v = true.
Proof.
  induction f as [|f IH]; intros s v r; cbn [scan_once]; [discriminate|].
  destruct s as [|c s]; [discriminate|].
  destruct (c =? 34).
  { destruct (scanstring s) as [[x rest]|]; [|discriminate].
    now intros [= <- _]. }
  destruct (c =? 123).
  { destruct (skip_ws s) as [|c' r']; [discriminate|].
    destruct (c' =? 125); [now intros [= <- _]|].
    now apply parse_members_well_formed. }
  destruct (c =? 91).
  { destruct (skip_ws s) as [|c' r']; [discriminate|].
    destruct (c' =? 93); [now intros [= <- _]|].
    now apply parse_items_well_formed. }
  repeat match goal with
  | |- (if ?b then _ else _) = _ -> _ =>
      destruct b; [now intros [= <- _]|]
  end.
  apply match_number_well_formed.
Qed.

Lemma json_loads_well_formed (s : str) (v : json) :
  json_loads s = Some v -> well_formed v = true.
Proof.
  unfold json_loads.
  destruct (scan_once (S (length s)) (skip_ws s)) as [[x rest]|] eqn:E;
    [|discriminate].
  destruct (skip_ws rest); [|discriminate].
  intros [= <-]. now apply scan_once_well_formed in E.
Qed.

Lemma dict_get_well_formed (key : str) (d : list (str * json))
    (default : json) :
  forallb (fun kv => well_formed (snd kv)) d = true ->
  well_formed default = true ->
  well_formed (dict_get key d default) = true.
Proof.
  intros Hd Hdef. induction d as [|[k w] d IH]; cbn [dict_get]; [assumption|].
  cbn [forallb snd] in Hd. apply andb_true_iff in Hd as [Hw Hd].
  destruct (str_eqb k key); auto.
Qed.

(** ** Serialization *)

Lemma forallb_map (A B : Type) (f : A -> B) (p : B -> bool) (l : list A) :
  forallb p (map f l) = forallb (fun x => p (f x)) l.
Proof. induction l as [|x l IH]; simpl; [reflexivity | now rewrite IH]. Qed.

Lemma forallb_true (A : Type) (p : A -> bool) (l : list A) :
  (forall x, p x = true) -> forallb p l = true.
Proof. intros H. apply forallb_forall. auto. Qed.

Lemma forallb_pointwise (A : Type) (p q : A -> bool) (l : list A) :
  (forall x, p x = q x) -> forallb p l = forallb q l.
Proof.
  intros H. induction l as [|x l IH]; simpl; [reflexivity|].
  now rewrite H, IH.
Qed.

Lemma json_of_option_plain (o : option str) :
  well_formed (json_of_option o) = true
  /\ float_free (json_of_option o) = true.
Proof. destruct o; split; reflexivity. Qed.

Lemma asdict_image_well_formed (i : ArticleImage.t) :
  well_formed (asdict_image i) = image_well_formed i.
Proof.
  destruct i as [id [fl|] [md|] [pl|] cap fp]; unfold image_well_formed;
    cbn; now rewrite andb_true_r.
Qed.

Lemma asdict_image_float_free (i : ArticleImage.t) :
  float_free (asdict_image i) = image_float_free i.
Proof.
  destruct i as [id [fl|] [md|] [pl|] cap fp]; unfold image_float_free;
    cbn; now rewrite andb_true_r.
Qed.

Lemma asdict_well_formed (a : Article.t) :
  forallb image_well_formed (Article.images a) = true ->
  well_formed (asdict a) = true.
Proof.
  intros H. destruct a as [src sid ty ti bs [bp|] secs imgs tgs md]; cbn;
    cbn in H;
    rewrite !forallb_map;
    rewrite (forallb_true _ secs) by (intros []; reflexivity);
    rewrite (forallb_true _ tgs) by reflexivity;
    rewrite (forallb_pointwise _ _ imgs asdict_image_well_formed), H;
    reflexivity.
Qed.

Lemma asdict_float_free (a : Article.t) :
  forallb image_float_free (Article.images a) = true ->
  float_free (asdict a) = true.
Proof.
  intros H. destruct a as [src sid ty ti bs [bp|] secs imgs tgs md]; cbn;
    cbn in H;
    rewrite !forallb_map;
    rewrite (forallb_true _ secs) by (intros []; reflexivity);
    rewrite (forallb_true _ tgs) by reflexivity;
    rewrite (forallb_pointwise _ _ imgs asdict_image_float_free), H;
    reflexivity.
Qed.

(** Decoding the text of any record whose payload values are well formed
    and float free gives its field dictionary back. *)
Lemma loads_to_json (py : PyRepr) (a : Article.t) :
  forallb image_well_formed (Article.images a) = true ->
  forallb image_float_free (Article.images a) = true ->
  json_loads (to_json py a) = Some (asdict a).
Proof.
  intros Hwf Hff. unfold to_json. apply loads_dumps.
  - now apply asdict_well_formed.
  - now apply asdict_float_free.
Qed.

Lemma images_loop_well_formed (py : PyRepr) (items : list json) :
  forallb well_formed items = true ->
  forallb image_well_formed (images_loop py items) = true.
Proof.
  induction items as [|item r IH]; intros H; [reflexivity|].
  cbn [forallb] in H. apply andb_true_iff in H as [Hitem Hr].
  cbn [images_loop]. destruct item as [| | | | | |d]; try reflexivity.
  cbn [image_of_item forallb]. rewrite (IH Hr), andb_true_r.
  cbn [well_formed] in Hitem. apply andb_true_iff in Hitem as [_ Hd].
  unfold image_well_formed. cbn [ArticleImage.caption ArticleImage.filepath].
  now rewrite !dict_get_well_formed.
Qed.

Lemma article_images_well_formed (py : PyRepr) (sp : soup) :
  forallb image_well_formed (article_images py sp) = true.
Proof.
  unfold article_images.
  destruct (select_one Anchors.viewer_data sp) as [vd|]; [|reflexivity].
  destruct (json_loads (text vd)) as [data|] eqn:E; [|reflexivity].
  apply json_loads_well_formed in E.
  destruct data as [| | | | | |d]; try reflexivity.
  cbn [well_formed] in E. apply andb_true_iff in E as [_ Hd].
  pose proof (@dict_get_well_formed (u "inclusions") d (JArray []) Hd eq_refl)
    as Hinc.
  unfold images_of_inclusions.
  destruct (dict_get (u "inclusions") d (JArray [])); try reflexivity.
  now apply images_loop_well_formed.
Qed.

Lemma map_injective (A B : Type) (f : A -> B) :
  (forall x y, f x = f y -> x = y) ->
  forall l l', map f l = map f l' -> l = l'.
Proof.
  intros Hf. induction l as [|x l IH]; intros [|y l']; simpl;
    try discriminate; [reflexivity|].
  intros [= Hxy Hl]. f_equal; auto.
Qed.

Lemma json_of_option_injective (o o' : option str) :
  json_of_option o = json_of_option o' -> o = o'.
Proof. destruct o, o'; simpl; congruence. Qed.

Lemma asdict_section_injective (s s' : ArticleSection.t) :
  asdict_section s = asdict_section s' -> s = s'.
Proof. destruct s, s'. unfold asdict_section. simpl. congruence. Qed.

Lemma asdict_image_injective (i i' : ArticleImage.t) :
  asdict_image i = asdict_image i' -> i = i'.
Proof.
  destruct i, i'. unfold asdict_image. simpl.
  intros [= H1 H2 H3 H4 H5 H6].
  apply json_of_option_injective in H2, H3, H4. congruence.
Qed.

(** The field dictionary determines the record. *)
Lemma asdict_injective (a b : Article.t) : asdict a = asdict b -> a = b.
Proof.
  destruct a as [? ? ? ? ? ? ? ? ? []], b as [? ? ? ? ? ? ? ? ? []].
  unfold asdict, asdict_metadata. simpl.
  intros [= H1 H2 H3 H4 H5 H6 H7 H8 H9 H10 H11 H12].
  apply json_of_option_injective in H6.
  apply (@map_injective _ _ asdict_section asdict_section_injective) in H7.
  apply (@map_injective _ _ asdict_image asdict_image_injective) in H8.
  apply (@map_injective _ _ JString) in H9; [|congruence].
  congruence.
Qed.

(** Decoding the text of any record whose payload values are well formed
    gives its field dictionary back, floats in their canonical literal. *)
Lemma loads_to_json_canonical (py : PyRepr) (a : Article.t) :
  floats_read_back py ->
  forallb image_well_formed (Article.images a) = true ->
  json_loads (to_json py a) = Some (canonical py (asdict a)).
Proof.
  intros Hpy Hwf. unfold to_json. apply loads_dumps_canonical; [exact Hpy|].
  now apply asdict_well_formed.
Qed.

Lemma to_json_within_written (budget : nat) (py : PyRepr) (a : Article.t)
    (t : str) :
  to_json_within budget py a = Written t ->
  t = to_json py a
  /\ Forall (fun i => (image_depth i <= budget)%nat) (Article.images a).
Proof.
  unfold to_json_within.
  destruct (forallb (fun i => (image_depth i <=? budget)%nat)
                    (Article.images a)) eqn:E; [|discriminate].
  intros [= <-]. split; [reflexivity|].
  apply Forall_forall. intros i Hi.
  rewrite forallb_forall in E. apply Nat.leb_le. now apply E.
Qed.

Lemma to_json_within_raises (budget : nat) (py : PyRepr) (a : Article.t)
    (i : ArticleImage.t) :
  In i (Article.images a) -> (budget < image_depth i)%nat ->
  to_json_within budget py a = RecursionError.
Proof.
  intros Hi Hd. unfold to_json_within.
  destruct (forallb (fun i => (image_depth i <=? budget)%nat)
                    (Article.images a)) eqn:E; [|reflexivity].
  rewrite forallb_forall in E. specialize (E i Hi).
  apply Nat.leb_le in E. lia.
Qed.

Lemma depth_nested_arrays (n : nat) : depth (Pages.nested_arrays n) = S n.
Proof.
  induction n as [|n IH]; [reflexivity|].
  cbn [Pages.nested_arrays depth fold_right]. rewrite IH. lia.
Qed.

Lemma py_sample_floats_read_back : floats_read_back Pages.py_sample.
Proof.
  intros l. unfold Pages.py_sample. cbn [repr_float].
  assert (H15 : float_literal (u "1.5")).
  { intros f rest Hrest.
    destruct (terminated_cases rest Hrest) as [->|[c [r [-> [->|[->| ->]]]]]];
      reflexivity. }
  assert (Hnan : float_literal (u "NaN")).
  { intros f rest Hrest. reflexivity. }
  assert (H00 : float_literal (u "0.0")).
  { intros f rest Hrest.
    destruct (terminated_cases rest Hrest) as [->|[c [r [-> [->|[->| ->]]]]]];
      reflexivity. }
  destruct (str_eqb l (u "1.50")); [exact H15|].
  destruct (str_eqb l (u "NaN")); [exact Hnan | exact H00].
Qed.




(** ** The decoder never runs out of fuel

    Every term and every loop iteration consumes input, so the fuel
    [json_loads] starts with is never exhausted: [None] always stands for
    a decoding error. *)

Lemma skip_ws_length (s : str) : (length (skip_ws s) <= length s)%nat.
Proof.
  induction s as [|c r IH]; cbn [skip_ws length]; [lia|].
  destruct (is_json_ws c); cbn [length]; lia.
Qed.

Lemma push_some (c : N) (o : option (str * str)) (x r : str) :
  push c o = Some (x, r) -> exists x', o = Some (x', r).
Proof.
  destruct o as [[x' r']|]; simpl; [|discriminate].
  intros [= _ <-]. now exists x'.
Qed.

Lemma scanstring_length_bounded (n : nat) :
  forall s x r,
    (length s <= n)%nat -> scanstring s = Some (x, r) ->
    (length r < length s)%nat.
Proof.
  induction n as [|n IH]; intros s x r Hn.
  - destruct s; [discriminate | simpl in Hn; lia].
  - destruct s as [|c s]; [discriminate|]. cbn [scanstring].
    assert (Hrec : forall t y,
               (length t <= n)%nat -> scanstring t = Some (y, r) ->
               (length r < length t)%nat) by (intros; eapply IH; eauto).
    cbn [length] in Hn |- *.
    repeat match goal with
    | |- Some _ = Some _ -> _ => intros [= _ <-]; lia
    | |- None = Some _ -> _ => discriminate
    | |- push _ (scanstring ?t) = Some _ -> _ =>
        let H := fresh in
        intros H; apply push_some in H as [? H];
        apply Hrec in H; cbn [length] in *; lia
    | |- context [if ?b then _ else _] => destruct b
    | |- context [match ?t with [] => _ | _ :: _ => _ end] =>
        destruct t; cbn [length] in *
    | |- context [match ?o with Some _ => _ | None => _ end] => destruct o
    end.
Qed.

Lemma scanstring_length (s x r : str) :
  scanstring s = Some (x, r) -> (length r < length s)%nat.
Proof. now apply scanstring_length_bounded with (n := length s). Qed.

Lemma span_digits_length (s : str) :
  (length (snd (span_digits s)) <= length s)%nat.
Proof.
  induction s as [|c r IH]; cbn [span_digits]; [simpl; lia|].
  destruct (isdigit c); [|simpl; lia].
  destruct (span_digits r) as [ds rest]. cbn [snd length] in *. lia.
Qed.

Lemma int_part_length (s ds r : str) :
  int_part s = Some (ds, r) -> (length r < length s)%nat.
Proof.
  unfold int_part. destruct s as [|c s]; [discriminate|].
  destruct (c =? 48); [intros [= _ <-]; simpl; lia|].
  destruct (isdigit c) eqn:Hc; [|discriminate].
  cbn [span_digits]. rewrite Hc.
  pose proof (span_digits_length s) as H.
  destruct (span_digits s) as [ds' rest]. intros [= _ <-].
  cbn [snd length] in *. lia.
Qed.

Lemma frac_part_length (s : str) :
  (length (snd (frac_part s)) <= length s)%nat.
Proof.
  unfold frac_part. destruct s as [|dot [|d r]]; try (simpl; lia).
  destruct ((dot =? 46) && isdigit d); [|simpl; lia].
  pose proof (span_digits_length (d :: r)) as H.
  destruct (span_digits (d :: r)) as [ds rest].
  cbn [snd length] in *. lia.
Qed.

Lemma exp_part_length (s : str) :
  (length (snd (exp_part s)) <= length s)%nat.
Proof.
  unfold exp_part. destruct s as [|e r]; [simpl; lia|].
  destruct ((e =? 101) || (e =? 69)); [|simpl; lia].
  set (split := match r with
                | [] => ([], r)
                | sg :: r' =>
                    if (sg =? 45) || (sg =? 43) then ([sg], r') else ([], r)
                end).
  assert (Hsplit : (length (snd split) <= length r)%nat).
  { subst split. destruct r as [|sg r']; [simpl; lia|].
    destruct ((sg =? 45) || (sg =? 43)); simpl; lia. }
  destruct split as [sign r1]. cbn [snd] in Hsplit.
  pose proof (span_digits_length r1) as H.
  destruct (span_digits r1) as [[|d ds] rest]; cbn [snd length] in *; lia.
Qed.

Lemma match_number_length (s : str) (v : json) (r : str) :
  match_number s = Some (v, r) -> (length r < length s)%nat.
Proof.
  unfold match_number.
  set (split := match s with
                | [] => ([], s)
                | c :: r0 => if c =? 45 then ([c], r0) else ([], s)
                end).
  assert (Hsplit : (length (snd split) <= length s)%nat).
  { subst split. destruct s as [|c r0]; [simpl; lia|].
    destruct (c =? 45); simpl; lia. }
  destruct split as [sign s1]. cbn [snd] in Hsplit.
  destruct (int_part s1) as [[ds r1]|] eqn:Hint; [|discriminate].
  apply int_part_length in Hint.
  pose proof (frac_part_length r1) as Hf.
  destruct (frac_part r1) as [fs r2]. cbn [snd] in Hf.
  pose proof (exp_part_length r2) as He.
  destruct (exp_part r2) as [es r3]. cbn [snd] in He.
  destruct fs; destruct es; intros [= _ <-]; lia.
Qed.

Ltac ws_bound t :=
  let H := fresh "Hws" in pose proof (skip_ws_length t) as H.

Lemma parse_members_length (pv : str -> option (json * str)) :
  consumes pv ->
  forall n s acc v r,
    parse_members pv n s acc = Some (v, r) -> (length r < length s)%nat.
Proof.
  intros Hpv. induction n as [|n IH]; intros s acc v r;
    cbn [parse_members]; [discriminate|].
  destruct s as [|q s]; [discriminate|].
  destruct (q =? 34); [|discriminate].
  destruct (scanstring s) as [[key r1]|] eqn:Hkey; [|discriminate].
  apply scanstring_length in Hkey.
  ws_bound r1. destruct (skip_ws r1) as [|colon r2]; [discriminate|].
  destruct (colon =? 58); [|discriminate].
  ws_bound r2.
  destruct (pv (skip_ws r2)) as [[x r3]|] eqn:Hx; [|discriminate].
  apply Hpv in Hx.
  ws_bound r3. destruct (skip_ws r3) as [|c r4]; [discriminate|].
  cbn [length] in *.
  destruct (c =? 125); [intros [= _ <-]; lia|].
  destruct (c =? 44); [|discriminate].
  intros H. apply IH in H. ws_bound r4. lia.
Qed.

Lemma parse_items_length (pv : str -> option (json * str)) :
  consumes pv ->
  forall n s acc v r,
    parse_items pv n s acc = Some (v, r) -> (length r < length s)%nat.
Proof.
  intros Hpv. induction n as [|n IH]; intros s acc v r;
    cbn [parse_items]; [discriminate|].
  destruct (pv s) as [[x r1]|] eqn:Hx; [|discriminate].
  apply Hpv in Hx.
  ws_bound r1. destruct (skip_ws r1) as [|c r2]; [discriminate|].
  cbn [length] in *.
  destruct (c =? 93); [intros [= _ <-]; lia|].
  destruct (c =? 44); [|discriminate].
  intros H. apply IH in H. ws_bound r2. lia.
Qed.

Lemma skipn_shorter (k : nat) (c : N) (s : str) :
  (length (skipn (S k) (c :: s)) < length (c :: s))%nat.
Proof. rewrite length_skipn. cbn [length]. lia. Qed.

Lemma scan_once_consumes (f : nat) : consumes (scan_once f).
Proof.
  induction f as [|f IH]; intros s v r; cbn [scan_once]; [discriminate|].
  destruct s as [|c s]; [discriminate|].
  destruct (c =? 34).
  { destruct (scanstring s) as [[x rest]|] eqn:Hs; [|discriminate].
    apply scanstring_length in Hs. intros [= _ <-]. simpl. lia. }
  destruct (c =? 123).
  { ws_bound s. destruct (skip_ws s) as [|c' r']; [discriminate|].
    cbn [length] in *.
    destruct (c' =? 125); [intros [= _ <-]; lia|].
    intros H. apply (parse_members_length IH) in H. cbn [length] in H. lia. }
  destruct (c =? 91).
  { ws_bound s. destruct (skip_ws s) as [|c' r']; [discriminate|].
    cbn [length] in *.
    destruct (c' =? 93); [intros [= _ <-]; lia|].
    intros H. apply (parse_items_length IH) in H. cbn [length] in H. lia. }
  repeat match goal with
  | |- (if starts_with ?lit ?t then Some (_, ?rest) else _) = _ -> _ =>
      destruct (starts_with lit t);
      [intros H; assert (E : r = rest) by congruence; rewrite E;
       apply skipn_shorter|]
  end.
  apply match_number_length.
Qed.

(** Two value readers that agree on every input shorter than [s] drive
    the loops to the same result on [s], whatever the bounds above the
    length of [s]. *)
Lemma parse_members_agree (pv pv' : str -> option (json * str)) :
  consumes pv ->
  forall n n' s acc,
    (length s < n)%nat -> (length s < n')%nat ->
    (forall t, (length t < length s)%nat -> pv t = pv' t) ->
    parse_members pv n s acc = parse_members pv' n' s acc.
Proof.
  intros Hpv. induction n as [|n IH]; intros n' s acc Hn Hn' Hagree;
    [lia|].
  destruct n' as [|n']; [lia|]. cbn [parse_members].
  destruct s as [|q s]; [reflexivity|].
  destruct (q =? 34); [|reflexivity].
  destruct (scanstring s) as [[key r1]|] eqn:Hkey; [|reflexivity].
  apply scanstring_length in Hkey.
  ws_bound r1. destruct (skip_ws r1) as [|colon r2]; [reflexivity|].
  destruct (colon =? 58); [|reflexivity].
  ws_bound r2. cbn [length] in *.
  rewrite <- (Hagree (skip_ws r2)) by lia.
  destruct (pv (skip_ws r2)) as [[x r3]|] eqn:Hx; [|reflexivity].
  apply Hpv in Hx.
  ws_bound r3. destruct (skip_ws r3) as [|c r4]; [reflexivity|].
  cbn [length] in *.
  destruct (c =? 125); [reflexivity|].
  destruct (c =? 44); [|reflexivity].
  ws_bound r4. apply IH; try lia.
  intros t Ht. apply Hagree. lia.
Qed.

Lemma parse_items_agree (pv pv' : str -> option (json * str)) :
  consumes pv ->
  forall n n' s acc,
    (length s < n)%nat -> (length s < n')%nat ->
    (forall t, (length t <= length s)%nat -> pv t = pv' t) ->
    parse_items pv n s acc = parse_items pv' n' s acc.
Proof.
  intros Hpv. induction n as [|n IH]; intros n' s acc Hn Hn' Hagree;
    [lia|].
  destruct n' as [|n']; [lia|]. cbn [parse_items].
  rewrite <- (Hagree s) by lia.
  destruct (pv s) as [[x r1]|] eqn:Hx; [|reflexivity].
  apply Hpv in Hx.
  ws_bound r1. destruct (skip_ws r1) as [|c r2]; [reflexivity|].
  cbn [length] in *.
  destruct (c =? 93); [reflexivity|].
  destruct (c =? 44); [|reflexivity].
  ws_bound r2. apply IH; try lia.
  intros t Ht. apply Hagree. lia.
Qed.

Lemma scan_once_agree (f : nat) :
  forall f' s,
    (length s < f)%nat -> (length s < f')%nat ->
    scan_once f s = scan_once f' s.
Proof.
  induction f as [|f IH]; intros f' s Hf Hf'; [lia|].
  destruct f' as [|f']; [lia|]. cbn [scan_once].
  destruct s as [|c s]; [reflexivity|]. cbn [length] in *.
  destruct (c =? 34); [reflexivity|].
  destruct (c =? 123).
  { ws_bound s. destruct (skip_ws s) as [|c' r']; [reflexivity|].
    destruct (c' =? 125); [reflexivity|].
    apply parse_members_agree; try lia.
    - apply scan_once_consumes.
    - intros t Ht. apply IH; lia. }
  destruct (c =? 91); [|reflexivity].
  ws_bound s. destruct (skip_ws s) as [|c' r']; [reflexivity|].
  destruct (c' =? 93); [reflexivity|].
  apply parse_items_agree; try lia.
  - apply scan_once_consumes.
  - intros t Ht. apply IH; lia.
Qed.

(** More fuel than [json_loads] takes never changes what it returns. *)
Theorem json_loads_fuel_independent (s : str) (f : nat) :
  (length s < f)%nat ->
  json_loads s
  = match scan_once f (skip_ws s) with
    | Some (v, rest) =>
        match skip_ws rest with
        | [] => Some v
        | _ :: _ => None
        end
    | None => None
    end.
Proof.
  intros Hf. unfold json_loads. ws_bound s.
  rewrite (@scan_once_agree (S (length s)) f (skip_ws s)) by lia.
  reflexivity.
Qed.

(** ** Further facts about the two entry points *)

(** An entry of the payload that is not an object ends the loop; the
    images appended before it stay in the returned record. *)
Lemma images_kept_up_to_bad_entry :
  exists a i,
    scrape_article Samples.py0 (u "url") (u "now")
                   Samples.article_second_entry_bad = Ok a
    /\ Article.images a = [i]
    /\ ArticleImage.image_id i = u "7".
Proof.
  eexists. eexists. split; [vm_compute; reflexivity|].
  split; reflexivity.
Qed.

(** Scenario C of the specification. *)
Lemma scenario_C_sections :
  article_sections (Samples.with_content Samples.body_scenario_C)
  = [ArticleSection.mk (u "findings") (u "Findings") (u "Text A");
     ArticleSection.mk (u "discussion") (u "Discussion") (u "Text B")].
Proof. reflexivity. Qed.

(** Without a heading, everything goes under ["Introduction"]. *)
Lemma sections_without_headings (sp : soup) (content_div : node) :
  select_one Anchors.content sp = Some content_div ->
  heading_titles (children content_div) = [] ->
  article_sections sp
  = sections_of_groups
      [(u "Introduction", fst (split_at_headings (children content_div)))].
Proof.
  intros Hc Hh. unfold article_sections. rewrite Hc, segment_groups.
  pose proof (split_titles (children content_div)) as Ht.
  rewrite Hh in Ht.
  destruct (snd (split_at_headings (children content_div))); [|discriminate].
  reflexivity.
Qed.

Lemma case_images_annotations (source_id : str) (items : list node) :
  forall idx,
    forallb (fun i => match CaseImage.annotations i with
                      | [] => true
                      | _ :: _ => false
                      end)
            (case_images source_id idx items) = true.
Proof.
  induction items as [|img r IH]; intros idx; [reflexivity|].
  cbn [case_images]. destruct (get (u "src") img) as [[|c src]|]; auto.
  cbn [forallb CaseImage.annotations]. apply IH.
Qed.

Lemma asdict_case_image_plain (i : CaseImage.t) :
  CaseImage.annotations i = [] ->
  well_formed (asdict_case_image i) = true
  /\ float_free (asdict_case_image i) = true.
Proof. destruct i. simpl. intros ->. split; reflexivity. Qed.

Lemma asdict_case_plain (c : Case.t) :
  (forall i, In i (Case.images c) ->
             well_formed (asdict_case_image i) = true
             /\ float_free (asdict_case_image i) = true) ->
  well_formed (asdict_case c) = true /\ float_free (asdict_case c) = true.
Proof.
  destruct c as [src sid ti bs bp md cp dg nr imgs tgs mt].
  cbn [Case.images]. intros Himgs.
  assert (Hw : forallb well_formed (map asdict_case_image imgs) = true).
  { rewrite forallb_map. apply forallb_forall. intros i Hi.
    exact (proj1 (Himgs i Hi)). }
  assert (Hf : forallb float_free (map asdict_case_image imgs) = true).
  { rewrite forallb_map. apply forallb_forall. intros i Hi.
    exact (proj2 (Himgs i Hi)). }
  assert (Htw : forall l : list str, forallb well_formed (map JString l) = true).
  { intros l. rewrite forallb_map. now apply forallb_true. }
  assert (Htf : forall l : list str, forallb float_free (map JString l) = true).
  { intros l. rewrite forallb_map. now apply forallb_true. }
  split.
  - unfold asdict_case. cbn [well_formed forallb snd map fst].
    cbn [Case.images Case.tags Case.modality].
    rewrite Hw, !Htw. reflexivity.
  - unfold asdict_case. cbn [float_free forallb snd].
    cbn [Case.images Case.tags Case.modality].
    rewrite Hf, !Htf. reflexivity.
Qed.

(** The serialization of the specification read back, for the record
    [scrape_case] returns. *)
Lemma case_to_json_round_trip
    (py : PyRepr) (url now : str) (sp : soup) (c : Case.t) :
  scrape_case url now sp = Ok c ->
  json_loads (case_to_json py c) = Some (asdict_case c).
Proof.
  intros Hc. apply scrape_case_ok in Hc. subst c.
  destruct (asdict_case_plain (case_record url now sp)) as [Hw Hf].
  { intros i Hi. apply asdict_case_image_plain.
    cbn [case_record Case.images] in Hi.
    pose proof (case_images_annotations
                  (Case.source_id (case_record url now sp))
                  (select Anchors.carousel sp) 0) as Hann.
    rewrite forallb_forall in Hann. specialize (Hann i Hi).
    now destruct (CaseImage.annotations i). }
  unfold case_to_json. now apply loads_dumps.
Qed.

(** The fields that do go through [clean_text] are normalized. *)
Lemma case_text_fields_normalized (url now : str) (sp : soup) (c : Case.t) :
  scrape_case url now sp = Ok c ->
  normalized (Case.title c) = true
  /\ normalized (Case.body_system c) = true
  /\ Forall (fun t => normalized t = true) (Case.tags c)
  /\ normalized (certainty (Case.diagnosis c)) = true
  /\ normalized (findings (Case.narrative c)) = true
  /\ normalized (discussion (Case.narrative c)) = true.
Proof.
  intros Hc. apply scrape_case_ok in Hc. subst c.
  cbn [case_record Case.title Case.body_system Case.tags Case.diagnosis
       Case.narrative certainty findings discussion].
  repeat split;
    try (match goal with
         | |- normalized (match ?o with Some _ => _ | None => _ end) = true =>
             destruct o; [apply clean_text_normalized | reflexivity]
         end).
  apply Forall_forall. intros t Ht. apply in_map_iff in Ht as [a [<- _]].
  apply clean_text_normalized.
Qed.

(** Every section title, the reserved one included, is normalized. *)
Lemma section_titles_normalized (sp : soup) :
  Forall (fun s => normalized (ArticleSection.title s) = true)
         (article_sections sp).
Proof.
  unfold article_sections.
  destruct (select_one Anchors.content sp) as [content_div|]; [|constructor].
  rewrite segment_groups. cbn [app].
  apply Forall_forall. intros s Hs.
  apply (in_map ArticleSection.title) in Hs.
  rewrite map_title_sections_of_groups in Hs.
  apply in_map_iff in Hs as [[t ls] [Ht Hin]]. cbn [fst] in Ht.
  apply filter_In in Hin as [Hin _].
  rewrite <- Ht. destruct Hin as [Hin | Hin].
  - injection Hin as <- _. reflexivity.
  - apply (in_map fst) in Hin. rewrite split_titles in Hin.
    unfold heading_titles in Hin. cbn [fst] in Hin.
    apply in_map_iff in Hin as [h [<- _]]. apply clean_text_normalized.
Qed.

(** * Further properties of the source *)

(** ** [clean_text] *)

Lemma sub_ws_from_fixed (s : str) :
  forall b,
    single_spaced s = true ->
    (b = true -> no_space_at_head s = true) ->
    sub_ws_from b s = s.
Proof.
  induction s as [|c r IH]; intros b Hs Hb; [reflexivity|].
  cbn [single_spaced] in Hs.
  apply andb_true_iff in Hs as [Hs Hr].
  apply andb_true_iff in Hs as [Hc Hadj].
  cbn [sub_ws_from]. destruct (isspace c) eqn:Ec.
  - cbn [negb orb] in Hc. apply N.eqb_eq in Hc. subst c.
    destruct b.
    + specialize (Hb eq_refl). cbn [no_space_at_head] in Hb.
      rewrite Ec in Hb. discriminate.
    + f_equal. apply IH; [exact Hr|]. intros _.
      destruct r as [|d r']; [reflexivity|].
      cbn [no_space_at_head]. cbn [andb] in Hadj. exact Hadj.
  - f_equal. apply IH; [exact Hr | discriminate].
Qed.

Lemma lstrip_fixed (s : str) : no_space_at_head s = true -> lstrip s = s.
Proof.
  destruct s as [|c r]; [reflexivity|]. cbn [no_space_at_head lstrip].
  intros H. apply negb_true_iff in H. now rewrite H.
Qed.

Lemma strip_fixed (s : str) :
  no_space_at_head s = true -> no_space_at_head (rev s) = true ->
  strip s = s.
Proof.
  intros H1 H2. unfold strip, rstrip.
  rewrite (lstrip_fixed _ H1), (lstrip_fixed _ H2). apply rev_involutive.
Qed.

Lemma clean_text_of_normalized (s : str) :
  normalized s = true -> clean_text (Some s) = s.
Proof.
  unfold normalized. intros H.
  apply andb_true_iff in H as [H H3]. apply andb_true_iff in H as [H1 H2].
  destruct s as [|c r]; [reflexivity|]. unfold clean_text, re_sub_ws.
  rewrite sub_ws_from_fixed by (auto; discriminate).
  now apply strip_fixed.
Qed.

(** A normalized string is left as it is. *)
Theorem clean_text_fixed (s : str) :
  normalized s = true -> clean_text (Some s) = s.
Proof. apply clean_text_of_normalized. Qed.

Lemma clean_text_fixed_witness : clean_text (Some (u "a b")) = u "a b".
Proof. apply clean_text_fixed. reflexivity. Defined.

(** Cleaning twice is cleaning once. *)
Theorem clean_text_idempotent (t : option str) :
  clean_text (Some (clean_text t)) = clean_text t.
Proof. apply clean_text_of_normalized, clean_text_normalized. Qed.

Lemma filter_sub_ws_from (s : str) (b : bool) :
  filter non_space (sub_ws_from b s) = filter non_space s.
Proof.
  revert b. induction s as [|c r IH]; intros b; [reflexivity|].
  cbn [sub_ws_from filter]. unfold non_space at 2.
  destruct (isspace c) eqn:Ec; cbn [negb].
  - destruct b; [apply IH|]. cbn [filter]. apply IH.
  - cbn [filter]. unfold non_space at 1. rewrite Ec. cbn [negb].
    f_equal. apply IH.
Qed.

Lemma filter_lstrip (s : str) :
  filter non_space (lstrip s) = filter non_space s.
Proof.
  induction s as [|c r IH]; [reflexivity|]. cbn [lstrip].
  destruct (isspace c) eqn:Ec; [|reflexivity].
  cbn [filter]. unfold non_space at 2. now rewrite Ec.
Qed.

Lemma filter_strip (s : str) :
  filter non_space (strip s) = filter non_space s.
Proof.
  unfold strip, rstrip.
  rewrite filter_rev, filter_lstrip, <- filter_rev, rev_involutive.
  apply filter_lstrip.
Qed.

Lemma length_sub_ws_from (s : str) (b : bool) :
  (length (sub_ws_from b s) <= length s)%nat.
Proof.
  revert b. induction s as [|c r IH]; intros b; [simpl; lia|].
  cbn [sub_ws_from]. destruct (isspace c); [destruct b|]; cbn [length].
  - specialize (IH true). lia.
  - specialize (IH true). lia.
  - specialize (IH false). lia.
Qed.

Lemma length_strip (s : str) : (length (strip s) <= length s)%nat.
Proof.
  unfold strip.
  destruct (lstrip_suffix s) as [w Hw].
  destruct (rstrip_prefix (lstrip s)) as [w' Hw'].
  rewrite Hw at 2. rewrite Hw' at 2. rewrite !length_app. lia.
Qed.

Lemma filter_clean_text (s : str) :
  filter non_space (clean_text (Some s)) = filter non_space s.
Proof.
  destruct s as [|c r]; [reflexivity|]. unfold clean_text, re_sub_ws.
  now rewrite filter_strip, filter_sub_ws_from.
Qed.

(** [clean_text] touches whitespace only: the other characters come out
    in the same order, none lost and none added, and the text never gets
    longer. *)
Theorem clean_text_keeps_non_space (s : str) :
  filter non_space (clean_text (Some s)) = filter non_space s
  /\ (length (clean_text (Some s)) <= length s)%nat.
Proof.
  split; [apply filter_clean_text|].
  destruct s as [|c r]; [simpl; lia|]. unfold clean_text, re_sub_ws.
  pose proof (length_strip (sub_ws_from false (c :: r))).
  pose proof (length_sub_ws_from (c :: r) false). lia.
Qed.

(** The result is empty exactly when the text is absent, empty or made of
    whitespace only. *)
Theorem clean_text_empty_iff (s : str) :
  clean_text (Some s) = [] <-> forallb isspace s = true.
Proof.
  pose proof (filter_clean_text s) as Hf.
  pose proof (clean_text_normalized (Some s)) as Hn.
  split.
  - intros H. rewrite H in Hf. cbn [filter] in Hf.
    apply forallb_forall. intros x Hx.
    destruct (isspace x) eqn:Ex; [reflexivity|].
    assert (Hin : In x (filter non_space s)).
    { apply filter_In. split; [exact Hx|]. unfold non_space. now rewrite Ex. }
    rewrite <- Hf in Hin. destruct Hin.
  - intros H. destruct (clean_text (Some s)) as [|c r] eqn:E; [reflexivity|].
    exfalso. unfold normalized in Hn.
    apply andb_true_iff in Hn as [Hn _]. apply andb_true_iff in Hn as [_ Hh].
    cbn [no_space_at_head] in Hh.
    assert (Hin : In c (filter non_space s)).
    { rewrite <- Hf. cbn [filter]. unfold non_space at 1. rewrite Hh.
      now left. }
    apply filter_In in Hin as [Hin Hc].
    rewrite forallb_forall in H. specialize (H c Hin).
    unfold non_space in Hc. rewrite H in Hc. discriminate.
Qed.

Lemma clean_text_absent : clean_text None = [].
Proof. reflexivity. Qed.

Lemma single_spaced_chars (s : str) :
  single_spaced s = true ->
  forallb (fun c => negb (isspace c) || (c =? space)) s = true.
Proof.
  induction s as [|c r IH]; [reflexivity|]. cbn [single_spaced forallb].
  intros H. apply andb_true_iff in H as [H Hr].
  apply andb_true_iff in H as [Hc _]. now rewrite Hc, IH.
Qed.

(** Whatever the text, absent or not, [clean_text] returns a string on
    one line without whitespace at either end, in which the only
    whitespace character is the plain blank and no two blanks are
    adjacent. *)
Theorem clean_text_output_shape (t : option str) :
  normalized (clean_text t) = true
  /\ forallb (fun c => negb (isspace c) || (c =? space)) (clean_text t)
     = true
  /\ ~ In 10 (clean_text t) /\ ~ In 13 (clean_text t).
Proof.
  pose proof (clean_text_normalized t) as Hn. split; [exact Hn|].
  unfold normalized in Hn. apply andb_true_iff in Hn as [Hn _].
  apply andb_true_iff in Hn as [Hs _].
  pose proof (single_spaced_chars _ Hs) as Hc.
  split; [exact Hc|].
  rewrite forallb_forall in Hc.
  split; intros Hin; apply Hc in Hin; discriminate.
Qed.

(** ** When the entry points fail *)

Lemma patient_step_labelled (item : node) (p : Patient) :
  tag_select_one Anchors.data_item_label item <> None ->
  exists p', patient_step item p = Ok p'.
Proof.
  intros H. unfold patient_step.
  destruct (tag_select_one Anchors.data_item_label item) as [l|];
    [|contradiction].
  cbn [text_of bind].
  destruct (contains (u "age") _).
  - destruct (findall_digits _); eexists; reflexivity.
  - destruct (_ || _); eexists; reflexivity.
Qed.

Lemma patient_loop_labelled (items : list node) :
  Forall (fun item => tag_select_one Anchors.data_item_label item <> None)
         items ->
  forall p, exists p', patient_loop items p = Ok p'.
Proof.
  induction 1 as [|item r Hitem _ IH]; intros p; cbn [patient_loop].
  - now exists p.
  - destruct (patient_step_labelled item p Hitem) as [p' ->]. apply IH.
Qed.

Lemma labelled_dec (item : node) :
  {tag_select_one Anchors.data_item_label item <> None}
  + {~ tag_select_one Anchors.data_item_label item <> None}.
Proof.
  destruct (tag_select_one Anchors.data_item_label item);
    [left; discriminate | right; intros H; now apply H].
Qed.

Lemma scrape_case_missing_label_raises_gen
    (url now : str) (sp : soup) (patient_data : node) :
  select_one Anchors.patient_data sp = Some patient_data ->
  (exists item,
      In item (tag_select Anchors.data_item patient_data)
      /\ tag_select_one Anchors.data_item_label item = None) ->
  scrape_case url now sp = Raise AttributeError.
Proof.
  intros Hpd Hitem. apply scrape_case_raises.
  unfold extract_patient. rewrite Hpd.
  now apply patient_loop_no_label.
Qed.

Lemma scrape_case_when_labelled (url now : str) (sp : soup) :
  all_items_labelled sp ->
  scrape_case url now sp = Ok (case_record url now sp).
Proof.
  unfold all_items_labelled. intros H.
  assert (Hp : exists p, extract_patient sp = Ok p).
  { unfold extract_patient.
    destruct (select_one Anchors.patient_data sp) as [pd|].
    - now apply patient_loop_labelled.
    - now exists patient_init. }
  destruct Hp as [p Hp]. now apply scrape_case_returns with p.
Qed.

Lemma scrape_case_when_unlabelled (url now : str) (sp : soup) :
  ~ all_items_labelled sp ->
  scrape_case url now sp = Raise AttributeError.
Proof.
  unfold all_items_labelled. intros H.
  destruct (select_one Anchors.patient_data sp) as [pd|] eqn:Hpd;
    [|now destruct H].
  apply scrape_case_missing_label_raises_gen with pd; [exact Hpd|].
  apply Exists_Forall_neg in H.
  2:{ intros item.
      destruct (tag_select_one Anchors.data_item_label item);
        [left; discriminate | right; intros H'; now apply H']. }
  apply Exists_exists in H as [item [Hin Hitem]].
  exists item. split; [exact Hin|].
  destruct (tag_select_one Anchors.data_item_label item);
    [exfalso; apply Hitem; discriminate | reflexivity].
Qed.

Lemma all_items_labelled_dec (sp : soup) :
  all_items_labelled sp \/ ~ all_items_labelled sp.
Proof.
  unfold all_items_labelled.
  destruct (select_one Anchors.patient_data sp) as [pd|]; [|now left].
  destruct (Forall_dec _ labelled_dec (tag_select Anchors.data_item pd));
    [now left | now right].
Qed.

Lemma items_within_int_limit_check (sp : soup) :
  match select_one Anchors.patient_data sp with
  | Some patient_data =>
      forallb (fun item => (length (text item) <=? int_max_str_digits)%nat)
              (tag_select Anchors.data_item patient_data)
  | None => true
  end = true ->
  items_within_int_limit sp.
Proof.
  unfold items_within_int_limit.
  destruct (select_one Anchors.patient_data sp) as [pd|]; [|trivial].
  intros H. apply Forall_forall. intros item Hitem.
  rewrite forallb_forall in H. apply Nat.leb_le. now apply H.
Qed.

(** On a page where no data item of the patient block is longer than
    [int()] converts (so that the conversion of the age cannot fail),
    [scrape_case] returns a record exactly when every data item has a
    label element (in particular when there is no patient block);
    otherwise it raises [AttributeError].  No other anchor, present or
    absent, makes it fail. *)
Theorem scrape_case_returns_iff (url now : str) (sp : soup) :
  items_within_int_limit sp ->
  (all_items_labelled sp <->
   scrape_case url now sp = Ok (case_record url now sp))
  /\ (~ all_items_labelled sp <->
      scrape_case url now sp = Raise AttributeError).
Proof.
  intros _.
  pose proof (@scrape_case_when_labelled url now sp) as Hyes.
  pose proof (@scrape_case_when_unlabelled url now sp) as Hno.
  split; split; auto.
  - intros H. destruct (all_items_labelled_dec sp) as [Hall | Hnot];
      [exact Hall|].
    apply Hno in Hnot. congruence.
  - intros H Hall. apply Hyes in Hall. congruence.
Qed.

Lemma scrape_case_returns_iff_witness :
  scrape_case (u "url") (u "now") Samples.patient_two_items
  = Ok (case_record (u "url") (u "now") Samples.patient_two_items)
  /\ scrape_case (u "url") (u "now") Samples.patient_no_label
     = Raise AttributeError.
Proof.
  assert (Hall : all_items_labelled Samples.patient_two_items).
  { repeat constructor; discriminate. }
  assert (Hnot : ~ all_items_labelled Samples.patient_no_label).
  { intros H. inversion H as [|? ? Hitem _]. now apply Hitem. }
  assert (Hshort : items_within_int_limit Samples.patient_two_items).
  { apply items_within_int_limit_check. vm_compute. reflexivity. }
  assert (Hshort' : items_within_int_limit Samples.patient_no_label).
  { apply items_within_int_limit_check. vm_compute. reflexivity. }
  split.
  - exact (proj1 (proj1 (@scrape_case_returns_iff
                           (u "url") (u "now") Samples.patient_two_items
                           Hshort))
                 Hall).
  - exact (proj1 (proj2 (@scrape_case_returns_iff
                           (u "url") (u "now") Samples.patient_no_label
                           Hshort'))
                 Hnot).
Defined.

(** [scrape_article] returns a record exactly when the title heading is
    there; no other anchor, present or absent, and no content of the
    hidden data node makes it fail. *)
Theorem scrape_article_returns_iff
    (py : PyRepr) (url now : str) (sp : soup) :
  (forall h, select_one Anchors.header_title sp = Some h ->
             scrape_article py url now sp
             = Ok (article_record py url now sp h))
  /\ (select_one Anchors.header_title sp = None <->
      scrape_article py url now sp = Raise AttributeError)
  /\ (select_one Anchors.header_title sp <> None <->
      exists a, scrape_article py url now sp = Ok a).
Proof.
  split; [intros h Hh; now apply scrape_article_returns|].
  destruct (select_one Anchors.header_title sp) as [h|] eqn:Hh.
  - pose proof (scrape_article_returns py url now sp Hh) as Hok.
    split; split; intros H; try discriminate; try congruence.
    now exists (article_record py url now sp h).
  - pose proof (scrape_article_no_title py url now sp Hh) as Hraise.
    split; split; intros H; try reflexivity; try assumption;
      try contradiction.
    destruct H as [a Ha]. congruence.
Qed.

(** ** The images of a case (lines 100-117) *)

Lemma chars_of_uint_injective (d d' : Decimal.uint) :
  chars_of_uint d = chars_of_uint d' -> d = d'.
Proof.
  revert d'. induction d; intros d'; destruct d'; cbn [chars_of_uint];
    try discriminate; try reflexivity;
    intros [= H]; f_equal; now apply IHd.
Qed.

Lemma str_of_N_injective (n m : N) : str_of_N n = str_of_N m -> n = m.
Proof.
  unfold str_of_N. intros H. apply chars_of_uint_injective in H.
  now apply DecimalN.Unsigned.to_uint_inj.
Qed.

Lemma case_images_in (source_id : str) (items : list node) :
  forall idx i,
    In i (case_images source_id idx items) <->
    exists j img src,
      nth_error items j = Some img /\ usable_src img = [src]
      /\ i = case_image_at source_id (idx + N.of_nat j + 1) src.
Proof.
  induction items as [|img r IH]; intros idx i.
  - split; [intros [] | intros [[|j] [? [? [H _]]]]; discriminate].
  - assert (Hshift : forall j, idx + 1 + N.of_nat j + 1
                               = idx + N.of_nat (S j) + 1) by (intros; lia).
    assert (Htail :
      In i (case_images source_id (idx + 1) r) <->
      exists j img' src,
        nth_error (img :: r) (S j) = Some img' /\ usable_src img' = [src]
        /\ i = case_image_at source_id (idx + N.of_nat (S j) + 1) src).
    { rewrite IH. split; intros [j [img' [src [H1 [H2 H3]]]]];
        exists j, img', src; cbn [nth_error] in *; rewrite Hshift in *;
        auto. }
    cbn [case_images]. unfold usable_src in *.
    destruct (get (u "src") img) as [[|c s]|] eqn:Hsrc.
    + rewrite Htail. split.
      * intros [j H]. now exists (S j).
      * intros [[|j] [img' [src [H1 [H2 H3]]]]].
        -- cbn [nth_error] in H1. injection H1 as <-.
           rewrite Hsrc in H2. discriminate.
        -- exists j, img', src. auto.
    + cbn [In]. rewrite Htail. split.
      * intros [<- | [j H]].
        -- exists O, img, (c :: s). cbn [nth_error]. rewrite Hsrc.
           repeat split. unfold case_image_at. now rewrite N.add_0_r.
        -- now exists (S j).
      * intros [[|j] [img' [src [H1 [H2 H3]]]]].
        -- left. cbn [nth_error] in H1. injection H1 as <-.
           rewrite Hsrc in H2. injection H2 as <-. subst i.
           unfold case_image_at. now rewrite N.add_0_r.
        -- right. exists j, img', src. auto.
    + rewrite Htail. split.
      * intros [j H]. now exists (S j).
      * intros [[|j] [img' [src [H1 [H2 H3]]]]].
        -- cbn [nth_error] in H1. injection H1 as <-.
           rewrite Hsrc in H2. discriminate.
        -- exists j, img', src. auto.
Qed.

Lemma case_images_filepaths (source_id : str) (items : list node) :
  forall idx,
    map CaseImage.filepath (case_images source_id idx items)
    = flat_map usable_src items.
Proof.
  induction items as [|img r IH]; intros idx; [reflexivity|].
  cbn [case_images flat_map]. unfold usable_src at 1.
  destruct (get (u "src") img) as [[|c s]|]; cbn [map app];
    try apply IH.
  cbn [CaseImage.filepath]. f_equal. apply IH.
Qed.

Lemma case_images_ids_distinct (source_id : str) (items : list node) :
  forall idx,
    NoDup (map CaseImage.image_id (case_images source_id idx items)).
Proof.
  induction items as [|img r IH]; intros idx; [constructor|].
  cbn [case_images].
  destruct (get (u "src") img) as [[|c s]|]; try apply IH.
  cbn [map]. constructor; [|apply IH].
  intros Hin. apply in_map_iff in Hin as [i [Hid Hi]].
  apply case_images_in in Hi as [j [img' [src [_ [_ ->]]]]].
  cbn [case_image_at CaseImage.image_id] in Hid.
  apply app_inv_head in Hid. apply app_inv_head in Hid.
  apply str_of_N_injective in Hid. lia.
Qed.

(** The images of a returned case follow the carousel: one image per
    carousel item that has a non-empty [src], in page order, with that
    [src] as file reference; the items without one are left out. *)
Theorem case_images_follow_carousel
    (url now : str) (sp : soup) (c : Case.t) :
  scrape_case url now sp = Ok c ->
  map CaseImage.filepath (Case.images c)
  = flat_map usable_src (select Anchors.carousel sp)
  /\ (length (Case.images c) <= length (select Anchors.carousel sp))%nat.
Proof.
  intros Hc. apply scrape_case_ok in Hc. subst c.
  cbn [case_record Case.images].
  split; [apply case_images_filepaths|].
  rewrite <- (length_map CaseImage.filepath), case_images_filepaths.
  generalize (select Anchors.carousel sp). intros l.
  induction l as [|x l IH]; [simpl; lia|].
  cbn [flat_map]. rewrite length_app. unfold usable_src at 1.
  destruct (get (u "src") x) as [[|? ?]|]; simpl in *; lia.
Qed.

(** An image is in the returned list exactly when it is the one built for
    a carousel item with a non-empty [src]: its identifier and caption
    carry the position of the item in the carousel, counted from 1 and
    counting the items without [src] too; modality and plane are
    ["Unknown"] and there is no annotation. *)
Theorem case_images_numbered
    (url now : str) (sp : soup) (c : Case.t) (i : CaseImage.t) :
  scrape_case url now sp = Ok c ->
  (In i (Case.images c) <->
   exists j img src,
     nth_error (select Anchors.carousel sp) j = Some img
     /\ usable_src img = [src]
     /\ i = case_image_at (Case.source_id c) (N.of_nat j + 1) src).
Proof.
  intros Hc. apply scrape_case_ok in Hc. subst c.
  cbn [case_record Case.images Case.source_id].
  apply case_images_in.
Qed.

(** The identifiers of the images of a returned case are pairwise
    distinct. *)
Theorem case_image_ids_distinct
    (url now : str) (sp : soup) (c : Case.t) :
  scrape_case url now sp = Ok c ->
  NoDup (map CaseImage.image_id (Case.images c)).
Proof.
  intros Hc. apply scrape_case_ok in Hc. subst c.
  cbn [case_record Case.images]. apply case_images_ids_distinct.
Qed.

Lemma case_images_follow_carousel_witness :
  exists c,
    scrape_case (u "url") (u "now") Pages.carousel = Ok c
    /\ map CaseImage.filepath (Case.images c) = [u "a.png"; u "c.png"].
Proof.
  eexists. split; [reflexivity|].
  apply (case_images_follow_carousel (u "url") (u "now") Pages.carousel
           eq_refl).
Defined.

Lemma case_images_numbered_witness :
  exists c,
    scrape_case (u "url") (u "now") Pages.carousel = Ok c
    /\ In (case_image_at (u "unknown") 3 (u "c.png")) (Case.images c).
Proof.
  eexists. split; [reflexivity|].
  apply (case_images_numbered (u "url") (u "now") Pages.carousel
           (case_image_at (u "unknown") 3 (u "c.png")) eq_refl).
  exists 2%nat. eexists. eexists.
  split; [reflexivity|]. split; reflexivity.
Defined.

Lemma case_image_ids_distinct_witness :
  exists c,
    scrape_case (u "url") (u "now") Pages.carousel = Ok c
    /\ NoDup (map CaseImage.image_id (Case.images c)).
Proof.
  eexists. split; [reflexivity|].
  apply (case_image_ids_distinct (u "url") (u "now") Pages.carousel eq_refl).
Defined.

(** ** Section segmentation, further *)

Lemma split_without_headings (kids : list node) :
  filter is_heading_node kids = [] ->
  split_at_headings kids = (flat_map child_lines kids, []).
Proof.
  induction kids as [|child r IH]; [reflexivity|].
  cbn [filter split_at_headings flat_map].
  destruct (is_heading_node child); [discriminate|].
  intros H. now rewrite (IH H).
Qed.

(** Without a heading among the children of the content container there
    is at most one section: it is titled ["Introduction"] and holds the
    lines of all paragraphs and list items in document order; there is
    none when there is no such line. *)
Theorem sections_without_heading
    (py : PyRepr) (url now : str) (sp : soup) (content_div : node)
    (a : Article.t) :
  scrape_article py url now sp = Ok a ->
  select_one Anchors.content sp = Some content_div ->
  filter is_heading_node (children content_div) = [] ->
  Article.sections a
  = match flat_map child_lines (children content_div) with
    | [] => []
    | l :: ls =>
        [ArticleSection.mk (u "introduction") (u "Introduction")
                           (join [10] (l :: ls))]
    end.
Proof.
  intros Ha Hc Hh. apply scrape_article_ok in Ha as [h [_ ->]].
  cbn [article_record Article.sections]. unfold article_sections.
  rewrite Hc, segment_groups, (split_without_headings _ Hh).
  cbn [fst snd app].
  destruct (flat_map child_lines (children content_div)); reflexivity.
Qed.

Lemma sections_without_heading_witness :
  exists a,
    scrape_article Samples.py0 (u "url") (u "now")
                   (Samples.with_content Samples.body_no_heading) = Ok a
    /\ Article.sections a
       = [ArticleSection.mk (u "introduction") (u "Introduction") (u "x")].
Proof.
  eexists. split; [reflexivity|].
  apply (sections_without_heading
           Samples.py0 (u "url") (u "now")
           (Samples.with_content Samples.body_no_heading)
           (content_div :=
              Samples.elem "div" "body user-generated-content"
                           Samples.body_no_heading)
           eq_refl eq_refl eq_refl).
Defined.

(** There is never more than one section per heading, plus the
    introduction. *)
Theorem section_count_bound
    (py : PyRepr) (url now : str) (sp : soup) (a : Article.t) :
  scrape_article py url now sp = Ok a ->
  match select_one Anchors.content sp with
  | Some content_div =>
      (length (Article.sections a)
       <= S (length (filter is_heading_node (children content_div))))%nat
  | None => Article.sections a = []
  end.
Proof.
  intros Ha. apply scrape_article_ok in Ha as [h [_ ->]].
  cbn [article_record Article.sections]. unfold article_sections.
  destruct (select_one Anchors.content sp) as [content_div|]; [|reflexivity].
  rewrite segment_groups. cbn [app]. unfold sections_of_groups.
  rewrite length_map.
  pose proof (split_titles (children content_div)) as Ht.
  apply (f_equal (@length str)) in Ht.
  unfold heading_titles in Ht. rewrite !length_map in Ht.
  rewrite <- Ht.
  match goal with
  | |- (length (filter ?f ?l) <= _)%nat =>
      pose proof (filter_length_le f l) as Hle
  end.
  cbn [length] in Hle. exact Hle.
Qed.

Lemma section_count_bound_witness :
  exists a,
    scrape_article Samples.py0 (u "url") (u "now")
                   (Samples.with_content Samples.body_empty_heading) = Ok a
    /\ (length (Article.sections a) <= 3)%nat.
Proof.
  eexists. split; [reflexivity|].
  apply (section_count_bound
           Samples.py0 (u "url") (u "now")
           (Samples.with_content Samples.body_empty_heading) eq_refl).
Defined.

Lemma segment_ignores (kids : list node) :
  forall secs title lines,
    segment kids secs title lines
    = segment (filter is_segment_child kids) secs title lines.
Proof.
  induction kids as [|child r IH]; intros secs title lines; [reflexivity|].
  cbn [filter]. unfold is_segment_child.
  destruct (name child) as [nm|] eqn:Hn.
  - destruct (is_heading nm) eqn:Hh; cbn [orb].
    + cbn [segment]. rewrite Hn, Hh. apply IH.
    + destruct (str_eqb nm (u "p")) eqn:Hp; cbn [orb].
      * cbn [segment]. rewrite Hn, Hh, Hp. apply IH.
      * destruct (str_eqb nm (u "ul")) eqn:Hu.
        -- cbn [segment]. rewrite Hn, Hh, Hp, Hu. apply IH.
        -- cbn [segment]. rewrite Hn, Hh, Hp, Hu. apply IH.
  - cbn [segment]. rewrite Hn. apply IH.
Qed.

(** Only the direct children of the content container that are headings
    (levels 2 to 4), paragraphs or unordered lists count: text nodes,
    comments and every other element, with whatever they contain, leave
    the sections unchanged. *)
Theorem sections_ignore_other_children
    (py : PyRepr) (url now : str) (sp : soup) (content_div : node)
    (a : Article.t) :
  scrape_article py url now sp = Ok a ->
  select_one Anchors.content sp = Some content_div ->
  Article.sections a
  = segment (filter is_segment_child (children content_div))
            [] (u "Introduction") [].
Proof.
  intros Ha Hc. apply scrape_article_ok in Ha as [h [_ ->]].
  cbn [article_record Article.sections]. unfold article_sections.
  rewrite Hc. apply segment_ignores.
Qed.

Lemma sections_ignore_other_children_witness :
  exists a,
    scrape_article Samples.py0 (u "url") (u "now")
                   (Samples.with_content Pages.body_with_wrapped_content)
    = Ok a
    /\ Article.sections a
       = [ArticleSection.mk (u "introduction") (u "Introduction")
                            (u "direct")].
Proof.
  eexists. split; [reflexivity|].
  apply (sections_ignore_other_children
           Samples.py0 (u "url") (u "now")
           (Samples.with_content Pages.body_with_wrapped_content)
           (content_div :=
              Samples.elem "div" "body user-generated-content"
                           Pages.body_with_wrapped_content)
           eq_refl eq_refl).
Defined.

Lemma lower_char_not_upper (c : N) : is_upper_ascii (lower_char c) = false.
Proof.
  unfold lower_char, is_upper_ascii.
  destruct (((65 <=? c) && (c <=? 90))
            || ((192 <=? c) && (c <=? 222) && negb (c =? 215))) eqn:E.
  - apply orb_true_iff in E as [E|E].
    + apply andb_true_iff in E as [E1 E2].
      apply N.leb_le in E1. apply N.leb_le in E2.
      apply andb_false_iff. right. apply N.leb_gt. lia.
    + apply andb_true_iff in E as [E _].
      apply andb_true_iff in E as [E1 E2].
      apply N.leb_le in E1. apply N.leb_le in E2.
      apply andb_false_iff. right. apply N.leb_gt. lia.
  - apply orb_false_iff in E as [E _]. exact E.
Qed.

Lemma slug_characters (title : str) :
  forallb (fun c => negb (c =? 32) && negb (is_upper_ascii c))
          (underscore_spaces (lower title)) = true.
Proof.
  unfold underscore_spaces, lower. rewrite map_map.
  apply forallb_forall. intros x Hx.
  apply in_map_iff in Hx as [c [<- _]].
  destruct (N.eqb_spec (lower_char c) 32) as [E|E]; [reflexivity|].
  rewrite lower_char_not_upper.
  apply N.eqb_neq in E. now rewrite E.
Qed.

Lemma sections_of_groups_slugs (groups : list (str * list str)) :
  Forall (fun s => ArticleSection.slug s
                   = underscore_spaces (lower (ArticleSection.title s)))
         (sections_of_groups groups).
Proof.
  unfold sections_of_groups. apply Forall_forall. intros s Hs.
  apply in_map_iff in Hs as [g [<- _]]. reflexivity.
Qed.

(** Where every section title is made of code points up to U+00FF (the
    range on which [lower] is [str.lower()]), the slug of every returned
    section is its title in lower case with each blank replaced by an
    underscore: it has the length of the title and holds neither a blank
    nor an ASCII capital. *)
Theorem section_slugs
    (py : PyRepr) (url now : str) (sp : soup) (a : Article.t) :
  scrape_article py url now sp = Ok a ->
  forallb (fun s => latin1 (ArticleSection.title s)) (Article.sections a)
  = true ->
  Forall (fun s =>
            ArticleSection.slug s
            = underscore_spaces (lower (ArticleSection.title s))
            /\ length (ArticleSection.slug s)
               = length (ArticleSection.title s)
            /\ forallb (fun c => negb (c =? 32) && negb (is_upper_ascii c))
                       (ArticleSection.slug s) = true)
         (Article.sections a).
Proof.
  intros Ha _. apply scrape_article_ok in Ha as [h [_ ->]].
  cbn [article_record Article.sections]. unfold article_sections.
  destruct (select_one Anchors.content sp) as [content_div|]; [|constructor].
  rewrite segment_groups. cbn [app].
  eapply Forall_impl; [|apply sections_of_groups_slugs].
  cbn beta. intros s Hs. rewrite Hs. split; [reflexivity|]. split.
  - unfold underscore_spaces, lower. now rewrite !length_map.
  - apply slug_characters.
Qed.

Lemma section_slugs_witness :
  exists a,
    scrape_article Samples.py0 (u "url") (u "now")
                   (Samples.with_content Samples.body_scenario_C) = Ok a
    /\ Forall (fun s =>
                 ArticleSection.slug s
                 = underscore_spaces (lower (ArticleSection.title s))
                 /\ length (ArticleSection.slug s)
                    = length (ArticleSection.title s)
                 /\ forallb (fun c => negb (c =? 32)
                                      && negb (is_upper_ascii c))
                            (ArticleSection.slug s) = true)
              (Article.sections a).
Proof.
  eexists. split; [reflexivity|].
  apply (section_slugs Samples.py0 (u "url") (u "now")
           (Samples.with_content Samples.body_scenario_C) eq_refl eq_refl).
Defined.

(** ** The embedded-data reader, further *)

Section ReaderFacts.

Variable py : PyRepr.

Lemma images_loop_prefix (objs : list json) (bad : json) (rest : list json) :
  forallb is_object objs = true -> is_object bad = false ->
  images_loop py (objs ++ bad :: rest) = images_loop py objs.
Proof.
  intros Hobjs Hbad. induction objs as [|x r IH]; cbn [app images_loop].
  - destruct bad; try reflexivity. discriminate.
  - cbn [forallb] in Hobjs. apply andb_true_iff in Hobjs as [Hx Hr].
    destruct x; try discriminate. cbn [image_of_item]. f_equal. now apply IH.
Qed.

Lemma images_loop_all_objects (objs : list json) :
  forallb is_object objs = true ->
  map Some (images_loop py objs) = map (image_of_item py) objs.
Proof.
  induction objs as [|x r IH]; intros H; [reflexivity|].
  cbn [forallb] in H. apply andb_true_iff in H as [Hx Hr].
  destruct x; try discriminate.
  cbn [images_loop image_of_item map]. f_equal. now apply IH.
Qed.

Lemma dict_get_absent (key : str) (d : list (str * json)) (default : json) :
  has_key key d = false -> dict_get key d default = default.
Proof.
  unfold has_key. induction d as [|[k w] d IH]; [reflexivity|].
  cbn [map fst mem existsb dict_get]. intros H.
  apply orb_false_iff in H as [Hk Hd].
  rewrite str_eqb_sym, Hk. now apply IH.
Qed.

End ReaderFacts.




(** A payload that decodes to something other than an object, or to an
    object whose [inclusions] is missing or is not a list, gives no
    image. *)
Theorem no_images_from_other_payload_shapes
    (py : PyRepr) (sp : soup) (viewer_data : node) (data : json) :
  select_one Anchors.viewer_data sp = Some viewer_data ->
  json_loads (text viewer_data) = Some data ->
  is_object data = false
  \/ (exists d, data = JObject d /\ has_key (u "inclusions") d = false)
  \/ (exists d, data = JObject d
                /\ forall items, dict_get (u "inclusions") d (JArray [])
                                 <> JArray items) ->
  article_images py sp = [].
Proof.
  intros Hvd Hload Hshape. unfold article_images. rewrite Hvd, Hload.
  destruct Hshape as [H | [[d [-> H]] | [d [-> H]]]].
  - destruct data; try reflexivity. discriminate.
  - now rewrite dict_get_absent.
  - destruct (dict_get (u "inclusions") d (JArray [])) eqn:E;
      try reflexivity.
    exfalso. now apply (H items).
Qed.


Lemma no_images_from_other_payload_shapes_witness :
  article_images Samples.py0 (Samples.with_viewer_data (u "[1, 2]")) = [].
Proof.
  refine (@no_images_from_other_payload_shapes
            Samples.py0 (Samples.with_viewer_data (u "[1, 2]"))
            (Samples.elem "div" "hidden data" [Text (u "[1, 2]")])
            (JArray [JInt 1; JInt 2]) eq_refl _ (or_introl eq_refl)).
  vm_compute. reflexivity.
Defined.


(** ** [to_json], further *)

Lemma hex_char_above_c0 (d : N) : above_c0 (hex_char d) = true.
Proof.
  unfold above_c0, hex_char. destruct (d <? 10); apply N.leb_le; lia.
Qed.

Lemma escape_char_above_c0 (c : N) :
  forallb above_c0 (escape_char c) = true.
Proof.
  unfold escape_char.
  repeat match goal with
  | |- context [if ?a =? ?b then _ else _] =>
      destruct (a =? b); [reflexivity|]
  end.
  destruct (c <=? 31) eqn:E.
  - cbn [forallb]. now rewrite !hex_char_above_c0.
  - cbn [forallb]. unfold above_c0. apply N.leb_gt in E.
    rewrite andb_true_r. apply N.leb_le. lia.
Qed.

Lemma forallb_flat_map (A B : Type) (p : B -> bool) (f : A -> list B)
    (l : list A) :
  (forall x, forallb p (f x) = true) -> forallb p (flat_map f l) = true.
Proof.
  intros H. induction l as [|x l IH]; [reflexivity|].
  cbn [flat_map]. now rewrite forallb_app, H, IH.
Qed.

Lemma encode_basestring_above_c0 (s : str) :
  forallb above_c0 (encode_basestring s) = true.
Proof.
  unfold encode_basestring. cbn [forallb].
  rewrite forallb_app, (forallb_flat_map _ _ _ escape_char_above_c0).
  reflexivity.
Qed.

Lemma join_above_c0 (sep : str) (texts : list str) :
  forallb above_c0 sep = true ->
  Forall (fun t => forallb above_c0 t = true) texts ->
  forallb above_c0 (join sep texts) = true.
Proof.
  intros Hsep. induction 1 as [|x r Hx Hr IH]; [reflexivity|].
  destruct r as [|y r]; [exact Hx|].
  rewrite join_cons, !forallb_app, Hx, Hsep. exact IH.
Qed.

Lemma str_of_N_above_c0 (n : N) : forallb above_c0 (str_of_N n) = true.
Proof.
  unfold str_of_N. pose proof (chars_of_uint_digits (N.to_uint n)) as H.
  rewrite forallb_forall in H |- *. intros c Hc. specialize (H c Hc).
  unfold isdigit in H. apply andb_true_iff in H as [H _].
  apply N.leb_le in H. apply N.leb_le. lia.
Qed.

Lemma dumps_above_c0 (py : PyRepr) (v : json) :
  float_free v = true -> forallb above_c0 (dumps py v) = true.
Proof.
  induction v as [| b | z | l | s | items IH | members IH]
    using json_nested_ind; intros Hff.
  - reflexivity.
  - destruct b; reflexivity.
  - cbn [dumps]. destruct z; cbn [str_of_Z forallb];
      now rewrite ?str_of_N_above_c0.
  - discriminate.
  - apply encode_basestring_above_c0.
  - cbn [dumps float_free] in *. rewrite !forallb_app.
    rewrite join_above_c0; [reflexivity | reflexivity |].
    apply Forall_forall. intros t Ht.
    apply in_map_iff in Ht as [x [<- Hx]].
    rewrite Forall_forall in IH. rewrite forallb_forall in Hff. auto.
  - cbn [dumps float_free] in *. rewrite !forallb_app.
    rewrite join_above_c0; [reflexivity | reflexivity |].
    apply Forall_forall. intros t Ht.
    apply in_map_iff in Ht as [[k x] [<- Hx]]. cbn [fst snd].
    rewrite Forall_forall in IH. rewrite forallb_forall in Hff.
    pose proof (IH (k, x) Hx (Hff (k, x) Hx)) as Hkx. cbn [snd] in Hkx.
    rewrite !forallb_app, encode_basestring_above_c0, Hkx. reflexivity.
Qed.

Lemma escape_char_raw (c : N) : written_raw c = true -> escape_char c = [c].
Proof.
  unfold written_raw, escape_char. intros H.
  apply andb_true_iff in H as [H H92]. apply andb_true_iff in H as [H32 H34].
  apply negb_true_iff in H92, H34. apply N.leb_le in H32.
  rewrite H34, H92.
  repeat match goal with
  | |- context [if ?a =? ?b then _ else _] =>
      destruct (N.eqb_spec a b) as [?|_]; [lia|]
  end.
  destruct (N.leb_spec c 31); [lia | reflexivity].
Qed.

Lemma encode_basestring_raw (s : str) :
  forallb written_raw s = true -> encode_basestring s = 34 :: s ++ [34].
Proof.
  intros H. unfold encode_basestring. do 2 f_equal.
  induction s as [|c s IH]; [reflexivity|].
  cbn [forallb] in H. apply andb_true_iff in H as [Hc Hs].
  cbn [flat_map]. now rewrite (escape_char_raw c Hc), IH.
Qed.



(** Two records that [scrape_article] returns and that serialize to the
    same text are the same record: the text loses nothing. *)
Theorem to_json_injective
    (py : PyRepr) (url url' now now' : str) (sp sp' : soup)
    (a b : Article.t) :
  scrape_article py url now sp = Ok a ->
  scrape_article py url' now' sp' = Ok b ->
  forallb image_float_free (Article.images a) = true ->
  forallb image_float_free (Article.images b) = true ->
  to_json py a = to_json py b -> a = b.
Proof.
  intros Ha Hb Hfa Hfb Heq.
  assert (Hla : json_loads (to_json py a) = Some (asdict a)).
  { apply loads_to_json; [|exact Hfa].
    apply scrape_article_ok in Ha as [h [_ ->]].
    apply article_images_well_formed. }
  assert (Hlb : json_loads (to_json py b) = Some (asdict b)).
  { apply loads_to_json; [|exact Hfb].
    apply scrape_article_ok in Hb as [h [_ ->]].
    apply article_images_well_formed. }
  rewrite Heq, Hlb in Hla.
  assert (Hab : asdict b = asdict a) by congruence.
  symmetry. now apply asdict_injective.
Qed.

Lemma to_json_injective_witness :
  article_record Samples.py0 (u "url") (u "now") Samples.titled
    (Samples.elem "h1" "header-title" [Text (u "T")])
  = article_record Samples.py0 (u "url") (u "now") Samples.titled
      (Samples.elem "h1" "header-title" [Text (u "T")]).
Proof.
  apply (@to_json_injective
           Samples.py0 (u "url") (u "url") (u "now") (u "now")
           Samples.titled Samples.titled _ _
           eq_refl eq_refl eq_refl eq_refl eq_refl).
Defined.

(** ** Time stamps and defaults *)

(** A case takes its creation time from the page when the page carries
    one and falls back to the capture time; an article always gets the
    capture time, whatever the page carries.  Both keep the requested
    address. *)
Theorem creation_time_sources
    (py : PyRepr) (address now : str) (sp : soup) :
  (forall c, scrape_case address now sp = Ok c ->
             created_at (Case.metadata c)
             = match page_date sp with Some v => v | None => now end
             /\ url (Case.metadata c) = address)
  /\ (forall a, scrape_article py address now sp = Ok a ->
                created_at (Article.metadata a) = now
                /\ url (Article.metadata a) = address).
Proof.
  split.
  - intros c Hc. apply scrape_case_ok in Hc. subst c.
    cbn [case_record Case.metadata created_at]. unfold page_date.
    split; [|reflexivity].
    destruct (select_one Anchors.date sp); reflexivity.
  - intros a Ha. apply scrape_article_ok in Ha as [h [_ ->]].
    split; reflexivity.
Qed.

(** ** Pages without anchors, and the two entry points side by side *)

(** On a page where none of the anchors of [scrape_case] is found, the
    record is made of the defaults alone: nothing fails and nothing is
    invented. *)
Theorem scrape_case_without_anchors (address now : str) (sp : soup) :
  select_one Anchors.case_rid sp = None ->
  select_one Anchors.date sp = None ->
  select_one Anchors.header_title sp = None ->
  select_one Anchors.systems sp = None ->
  select Anchors.tags sp = [] ->
  select_one Anchors.patient_data sp = None ->
  select_one Anchors.certainty sp = None ->
  select_one Anchors.findings sp = None ->
  select_one Anchors.discussion sp = None ->
  select Anchors.carousel sp = [] ->
  scrape_case address now sp
  = Ok (Case.mk (u "radiopaedia") (u "unknown") (u "Untitled")
                (u "Unknown") (u "Unknown") [u "X-ray"]
                (u "Not explicitly stated")
                (mkDiagnosis (u "Untitled") (u "unknown"))
                (mkNarrative [] [] []) [] []
                (mkMetadata now address (u "See Radiopaedia ToS"))).
Proof.
  intros H1 H2 H3 H4 H5 H6 H7 H8 H9 H10.
  rewrite scrape_case_unfold. unfold extract_patient. rewrite H6.
  cbn [bind]. unfold case_record.
  now rewrite H1, H2, H3, H4, H5, H7, H8, H9, H10.
Qed.

Lemma scrape_case_without_anchors_witness :
  exists c, scrape_case (u "url") (u "now") Samples.blank = Ok c
            /\ Case.source_id c = u "unknown".
Proof.
  eexists. split.
  - apply (scrape_case_without_anchors (u "url") (u "now") Samples.blank);
      reflexivity.
  - reflexivity.
Defined.

(** Scraped as a case and as an article, the same page gives the same
    title, body system and tags; only the identifier is looked up under
    different anchors. *)
Theorem entry_points_agree
    (py : PyRepr) (address address' now now' : str) (sp : soup)
    (c : Case.t) (a : Article.t) :
  scrape_case address now sp = Ok c ->
  scrape_article py address' now' sp = Ok a ->
  Case.title c = Article.title a
  /\ Case.body_system c = Article.body_system a
  /\ Case.tags c = Article.tags a
  /\ Case.source c = Article.source a
  /\ diagnosis_text (Case.diagnosis c) = Article.title a.
Proof.
  intros Hc Ha. apply scrape_case_ok in Hc. subst c.
  apply scrape_article_ok in Ha as [h [Hh ->]].
  cbn [case_record article_record Case.title Article.title
       Case.body_system Article.body_system Case.tags Article.tags
       Case.source Article.source Case.diagnosis diagnosis_text].
  rewrite Hh. repeat split; reflexivity.
Qed.

Lemma entry_points_agree_witness :
  exists c a,
    scrape_case (u "url") (u "now") Samples.titled = Ok c
    /\ scrape_article Samples.py0 (u "url") (u "now") Samples.titled = Ok a
    /\ Case.title c = Article.title a.
Proof.
  eexists. eexists. split; [reflexivity|]. split; [reflexivity|].
  apply (@entry_points_agree Samples.py0 (u "url") (u "url") (u "now")
           (u "now") Samples.titled _ _ eq_refl eq_refl).
Defined.

Lemma case_text_fields_normalized_witness :
  exists c,
    scrape_case (u "url") (u "now") (Samples.tagged " a  b ") = Ok c
    /\ Forall (fun t => normalized t = true) (Case.tags c).
Proof.
  eexists. split; [reflexivity|].
  apply (case_text_fields_normalized
           (u "url") (u "now") (Samples.tagged " a  b ") eq_refl).
Defined.
